(** * The frame table of the Pintos paging project (vm/frame.c)

    A shallow embedding of [vm/frame.c]: the frame table (a hash keyed by
    the kernel page, an intrusive list in insertion order and the clock
    pointer), the allocator with its eviction path, the deallocator, the
    pin switch and the clock scanner.

    The C code mutates global variables and calls into the rest of the
    kernel.  Both are made explicit: every function of the file is a
    computation in a state-and-failure monad over [state], calls that
    leave the file are recorded in a trace, and the parts of the kernel
    that the file only uses (address macros, the thread structure, the two
    allocators, the swap device) are the fields of a [kernel] record. *)

From stdpp Require Import gmap list.
From Stdlib Require Import ZArith.

Local Open Scope Z_scope.
#[local] Set Warnings "-clear-no-such-hyp".

(** ** Data *)

(** [struct frame_table_entry], lines 32-43.  The two intrusive link
    fields [helem] and [lelem] carry no data of their own: membership in
    [frame_map] and the position in [frame_list] stand for them.  Pointers
    are addresses in [Z]; the thread pointer [t] is null when it is [0]. *)
Record frame_table_entry := FTE {
  kpage : Z;
  upage : Z;
  t : Z;
  pinned : bool
}.

Global Instance frame_table_entry_eq_dec : EqDecision frame_table_entry.
Proof. solve_decision. Defined.

(** The assignment [f->pinned = v] of line 229. *)
Definition set_pinned (v : bool) (e : frame_table_entry) : frame_table_entry :=
  FTE (kpage e) (upage e) (t e) v.

(** [frame_less_func], lines 253-258: the order of the hash on its
    elements, the order of their [kpage] addresses. *)
Definition frame_less_func (a b : frame_table_entry) : bool :=
  bool_decide (kpage a < kpage b).

(** The bytes of a pointer in memory, for the four-byte little-endian
    pointers of the machine Pintos runs on. *)
Definition pointer_bytes (p : Z) : list Z :=
  [p `mod` 256; (p `div` 256) `mod` 256; (p `div` 65536) `mod` 256;
   (p `div` 16777216) `mod` 256].

(** [frame_hash_func], lines 248-252: [hash_bytes] over the bytes of the
    [kpage] field.  [hash_bytes] belongs to [lib/kernel/hash.c], which is
    not among the sources, and is a parameter. *)
Definition frame_hash_func (hash_bytes : list Z → Z) (entry : frame_table_entry)
  : Z :=
  hash_bytes (pointer_bytes (kpage entry)).

(** A value of type [struct list_elem *] as [clock_ptr] can hold it:
    [NULL], the [lelem] field of the entry allocated at address [a], or
    [list_end (&frame_list)], the address of the tail sentinel of the
    list.  [list_entry] subtracts a constant offset, so the same value also
    names the [struct frame_table_entry *] that [clock_next_frame] returns:
    for [ListEnd] that pointer designates no entry at all. *)
Inductive list_elem :=
| Null
| Lelem (a : Z)
| ListEnd.

Global Instance list_elem_eq_dec : EqDecision list_elem.
Proof. solve_decision. Defined.

(** Calls that leave [frame.c], in the order they are made. *)
Inductive event :=
| EvLockAcquire
| EvLockRelease
| EvPallocGet (r : option Z)
| EvPallocFree (k : Z)
| EvMalloc (r : option Z)
| EvFree (a : Z)
| EvIsAccessed (pd up : Z) (r : bool)
| EvSetAccessed (pd up : Z) (v : bool)
| EvClearPage (pd up : Z)
| EvSwapOut (k idx : Z)
| EvSuptSetSwap (supt up idx : Z).

Global Instance event_eq_dec : EqDecision event.
Proof. solve_decision. Defined.

(** The ways a call does not return. *)
Inductive fault :=
| PanicEmptyTable      (* PANIC of lines 176 and 202 *)
| PanicNoVictim        (* PANIC of line 197 *)
| PanicNoSuchFrame     (* PANIC of line 224 *)
| AssertFailed (line : nat)  (* a failed ASSERT of frame.c *)
| PanicDuplicateFrame  (* insertion of a key the registry already holds *)
| LockUnavailable      (* lock_acquire on a held lock, lock_release on a free one *)
| StalePointer.        (* a read or write through a pointer to freed memory,
                          or through the null pointer: undefined in C *)

Global Instance fault_eq_dec : EqDecision fault.
Proof. solve_decision. Defined.

(** What [frame.c] takes from the rest of the kernel without defining it.
    [threads/vaddr.h] and [threads/thread.h] are not among the sources, so
    the two address macros and the two thread fields are parameters.  The
    page pool, the kernel heap and the swap device answer through a choice
    function each: which free page [palloc_get_page] hands out of the pool,
    which block [malloc] returns given the set of live blocks ([None] is
    the null result), the slot [vm_swap_out] writes a frame to.
    [list_end_entry] is what the fields of the pseudo entry overlaying the
    tail sentinel of [frame_list] read as; it depends on the memory layout
    and is left arbitrary. *)
Record kernel := Kernel {
  is_kernel_vaddr : Z → bool;
  pg_ofs : Z → Z;
  thread_pagedir : Z → Z;
  thread_supt : Z → Z;
  palloc_pick : gset Z → option Z;
  malloc_pick : gset Z → option Z;
  swap_pick : Z → Z;
  list_end_entry : frame_table_entry
}.

(** The static variables of the file (lines 18-25), the kernel heap
    restricted to the entries the file allocated, and the state of the
    collaborators that the file reads back: the free pages of the user
    pool and the accessed bits, one per page directory and user page.
    [frame_map] takes a kernel page to the address of its entry:
    [frame_hash_func] and [frame_less_func] (lines 248-258) hash and
    compare the [kpage] field alone.  [scan_log] is ghost state: the
    pointers returned by [clock_next_frame], oldest first. *)
Record state := State {
  frame_lock : bool;
  frame_map : gmap Z Z;
  frame_list : list Z;
  clock_ptr : list_elem;
  entries : gmap Z frame_table_entry;
  user_pool : gset Z;
  accessed : gset (Z * Z);
  trace : list event;
  scan_log : list list_elem
}.

Definition set_frame_lock (b : bool) (s : state) : state :=
  State b (frame_map s) (frame_list s) (clock_ptr s) (entries s)
        (user_pool s) (accessed s) (trace s) (scan_log s).
Definition set_frame_map (m : gmap Z Z) (s : state) : state :=
  State (frame_lock s) m (frame_list s) (clock_ptr s) (entries s)
        (user_pool s) (accessed s) (trace s) (scan_log s).
Definition set_frame_list (l : list Z) (s : state) : state :=
  State (frame_lock s) (frame_map s) l (clock_ptr s) (entries s)
        (user_pool s) (accessed s) (trace s) (scan_log s).
Definition set_clock_ptr (p : list_elem) (s : state) : state :=
  State (frame_lock s) (frame_map s) (frame_list s) p (entries s)
        (user_pool s) (accessed s) (trace s) (scan_log s).
Definition set_entries (h : gmap Z frame_table_entry) (s : state) : state :=
  State (frame_lock s) (frame_map s) (frame_list s) (clock_ptr s) h
        (user_pool s) (accessed s) (trace s) (scan_log s).
Definition set_user_pool (p : gset Z) (s : state) : state :=
  State (frame_lock s) (frame_map s) (frame_list s) (clock_ptr s) (entries s)
        p (accessed s) (trace s) (scan_log s).
Definition set_accessed (a : gset (Z * Z)) (s : state) : state :=
  State (frame_lock s) (frame_map s) (frame_list s) (clock_ptr s) (entries s)
        (user_pool s) a (trace s) (scan_log s).
Definition set_trace (tr : list event) (s : state) : state :=
  State (frame_lock s) (frame_map s) (frame_list s) (clock_ptr s) (entries s)
        (user_pool s) (accessed s) tr (scan_log s).
Definition set_scan_log (lg : list list_elem) (s : state) : state :=
  State (frame_lock s) (frame_map s) (frame_list s) (clock_ptr s) (entries s)
        (user_pool s) (accessed s) (trace s) lg.

(** ** The monad *)

Inductive outcome (A : Type) :=
| Done (a : A) (s : state)
| Halt (f : fault) (s : state).
Arguments Done {A} a s.
Arguments Halt {A} f s.

Definition M (A : Type) : Type := state → outcome A.

Global Instance M_ret : MRet M := λ A a s, Done a s.
Global Instance M_bind : MBind M := λ A B f m s,
  match m s with
  | Done a s' => f a s'
  | Halt e s' => Halt e s'
  end.

Definition halt {A} (e : fault) : M A := λ s, Halt e s.
Definition gets {A} (f : state → A) : M A := λ s, Done (f s) s.
Definition modify (f : state → state) : M unit := λ s, Done tt (f s).
Definition emit (e : event) : M unit :=
  modify (λ s, set_trace (trace s ++ [e]) s).

(** [ASSERT (b)] at the given line of frame.c. *)
Definition ASSERT (line : nat) (b : bool) : M unit :=
  if b then mret tt else halt (AssertFailed line).

(** The final state of a run, completed or not, and how it ended. *)
Definition final {A} (o : outcome A) : state :=
  match o with Done _ s => s | Halt _ s => s end.
Definition verdict {A} (o : outcome A) : A + fault :=
  match o with Done a _ => inl a | Halt f _ => inr f end.

(** ** Collaborators

    None of the following is defined in [frame.c]; each definition gives
    the effect of one call on the state above and records the call. *)

(** Modelled from the spec: [threads/synch.c] is not among the sources.
    §5 has one global lock held for the duration of each operation; one
    operation runs at a time here, so acquiring a held lock cannot
    proceed. *)
Definition lock_acquire : M unit :=
  held ← gets frame_lock;
  if held : bool then halt LockUnavailable
  else modify (set_frame_lock true) ;; emit EvLockAcquire.

(** Modelled from the spec: [threads/synch.c] is not among the sources;
    releasing is the end of the critical section of §5. *)
Definition lock_release : M unit :=
  held ← gets frame_lock;
  if held : bool then modify (set_frame_lock false) ;; emit EvLockRelease
  else halt LockUnavailable.

(** Modelled from the spec: [threads/palloc.c] is not among the sources.
    §6: [acquire() -> frame-or-none]; the page handed out leaves the
    pool. *)
Definition palloc_get_page (K : kernel) : M (option Z) :=
  pool ← gets user_pool;
  let r := palloc_pick K pool in
  match r with
  | Some k => modify (set_user_pool (pool ∖ {[k]}))
  | None => mret tt
  end ;;
  emit (EvPallocGet r) ;;
  mret r.

(** Modelled from the spec: [threads/palloc.c] is not among the sources.
    §6: [release(frame)]; the page is free again. *)
Definition palloc_free_page (k : Z) : M unit :=
  modify (λ s, set_user_pool ({[k]} ∪ user_pool s) s) ;;
  emit (EvPallocFree k).

(** Modelled from the spec: [threads/malloc.c] is not among the sources.
    §4.3 only says that entry-record allocation can fail; the block
    returned is chosen among those not live. *)
Definition malloc (K : kernel) : M (option Z) :=
  h ← gets entries;
  let r := malloc_pick K (dom h) in
  emit (EvMalloc r) ;;
  mret r.

(** Modelled from the spec: [threads/malloc.c] is not among the sources;
    the entry record is destroyed (§3, lifecycle). *)
Definition free (a : Z) : M unit :=
  modify (λ s, set_entries (delete a (entries s)) s) ;;
  emit (EvFree a).

(** Modelled from the spec: [userprog/pagedir.c] is not among the sources.
    §6: [query_accessed(virtual_page) -> bool] on a page table. *)
Definition pagedir_is_accessed (pd up : Z) : M bool :=
  acc ← gets accessed;
  let r := bool_decide ((pd, up) ∈ acc) in
  emit (EvIsAccessed pd up r) ;;
  mret r.

(** Modelled from the spec: [userprog/pagedir.c] is not among the sources.
    §6: [clear_accessed(virtual_page)]; the call also sets the bit when
    its last argument is true. *)
Definition pagedir_set_accessed (pd up : Z) (v : bool) : M unit :=
  modify (λ s, set_accessed
                 (if v then {[(pd, up)]} ∪ accessed s
                  else accessed s ∖ {[(pd, up)]}) s) ;;
  emit (EvSetAccessed pd up v).

(** Modelled from the spec: [userprog/pagedir.c] is not among the sources.
    §6: [clear_mapping(virtual_page)]; only the call is recorded. *)
Definition pagedir_clear_page (pd up : Z) : M unit :=
  emit (EvClearPage pd up).

(** Modelled from the spec: [vm/swap.c] is not among the sources.
    §6: [write_out(frame_contents) -> backing_location]. *)
Definition vm_swap_out (K : kernel) (k : Z) : M Z :=
  let idx := swap_pick K k in
  emit (EvSwapOut k idx) ;;
  mret idx.

(** Modelled from the spec: [vm/page.c] is not among the sources.
    §6: [record_backing_location(owner, virtual_page, backing_location)]. *)
Definition vm_supt_set_swap (supt up idx : Z) : M unit :=
  emit (EvSuptSetSwap supt up idx).

(** Modelled from the spec: [lib/kernel/hash.c] is not among the sources.
    §4.1: [find(frame_id) -> entry or absent]. *)
Definition hash_find (k : Z) : M (option Z) :=
  gets (λ s, frame_map s !! k).

(** Modelled from the spec: [lib/kernel/hash.c] is not among the sources.
    §4.1: [insert(entry)] adds a new entry and is fatal if the key is
    already present.  The key is the [kpage] field of the entry at [a].
    No theorem below depends on the fatal case: in a well-formed table the
    page that [vm_frame_allocate] inserts is never a key already. *)
Definition hash_insert (a : Z) : M unit :=
  h ← gets entries;
  match h !! a with
  | None => halt StalePointer
  | Some e =>
      m ← gets frame_map;
      match m !! kpage e with
      | Some _ => halt PanicDuplicateFrame
      | None => modify (set_frame_map (<[kpage e := a]> m))
      end
  end.

(** Modelled from the spec: [lib/kernel/hash.c] is not among the sources.
    §4.1: [remove(frame_id)] deletes the entry.  The element passed at
    line 163 is the one [hash_find] returned for [k]. *)
Definition hash_delete (k : Z) : M unit :=
  modify (λ s, set_frame_map (delete k (frame_map s)) s).

(** Modelled from the spec: [lib/kernel/hash.c] is not among the sources;
    the number of entries of the registry (§4.2, [n]). *)
Definition hash_size : M nat :=
  gets (λ s, size (frame_map s)).

(** Modelled from the spec: [lib/kernel/list.c] is not among the sources.
    §3: the Eviction Order is a sequence in insertion order, here the
    list of its elements from first to last; [list_empty] tells whether
    there is none. *)
Definition list_empty (l : list Z) : bool :=
  match l with [] => true | _ => false end.

(** Modelled from the spec: [lib/kernel/list.c] is not among the sources;
    the first element of the sequence of §3.  Line 204 of [frame.c]
    compares [clock_ptr] with [list_end (&frame_list)]: the end of the list
    is a position of its own, after the last element, and it is where the
    list begins when it is empty. *)
Definition list_begin (l : list Z) : list_elem :=
  match l with [] => ListEnd | a :: _ => Lelem a end.

(** Modelled from the spec: [lib/kernel/list.c] is not among the sources;
    the position after that of [a] in the sequence of §3, which for the
    last element is the end of the list tested at line 204.  There is no
    answer when [a] is not an element of the list: the link fields read
    are then those of a record that has been freed. *)
Fixpoint list_next (l : list Z) (a : Z) : option list_elem :=
  match l with
  | [] => None
  | x :: l' => if decide (x = a) then Some (list_begin l') else list_next l' a
  end.

(** Modelled from the spec: [lib/kernel/list.c] is not among the sources;
    insertion at the end, the insertion order of §3. *)
Definition list_push_back (a : Z) : M unit :=
  modify (λ s, set_frame_list (frame_list s ++ [a]) s).

(** Modelled from the spec: [lib/kernel/list.c] is not among the sources;
    the element is unlinked from the sequence of §3.  Nothing but the two
    neighbours is written: [clock_ptr] keeps its value. *)
Definition list_remove (a : Z) : M unit :=
  modify (λ s, set_frame_list (filter (λ x, x ≠ a) (frame_list s)) s).

(** A read of the fields of [*e], for [e] a pointer returned by
    [clock_next_frame]. *)
Definition deref (K : kernel) (e : list_elem) : M frame_table_entry :=
  match e with
  | Null => halt StalePointer
  | Lelem a =>
      h ← gets entries;
      match h !! a with
      | Some f => mret f
      | None => halt StalePointer
      end
  | ListEnd => mret (list_end_entry K)
  end.

(** What a pointer returned by [clock_next_frame] reads, as a function of
    the entry records. *)
Definition fields (K : kernel) (h : gmap Z frame_table_entry) (e : list_elem)
  : option frame_table_entry :=
  match e with
  | Null => None
  | Lelem a => h !! a
  | ListEnd => Some (list_end_entry K)
  end.

(** ** The functions of frame.c *)

Section FrameTable.

Context (K : kernel).

(** [vm_frame_init], lines 51-58.  [hash_init] and [list_init] make both
    containers empty without touching the records they held. *)
Definition vm_frame_init : M unit :=
  modify (set_frame_lock false) ;;
  modify (set_frame_map ∅) ;;
  modify (set_frame_list []) ;;
  modify (set_clock_ptr Null).

(** [vm_frame_do_free], lines 144-169. *)
Definition vm_frame_do_free (kpage : Z) (free_page : bool) : M unit :=
  held ← gets frame_lock;
  ASSERT 147 held ;;
  ASSERT 148 (is_kernel_vaddr K kpage) ;;
  ASSERT 149 (bool_decide (pg_ofs K kpage = 0)) ;;
  h ← hash_find kpage;
  match h with
  | None => mret tt
  | Some f =>
      hash_delete kpage ;;
      list_remove f ;;
      (if free_page then palloc_free_page kpage else mret tt) ;;
      free f
  end.

(** [vm_frame_free], lines 120-126. *)
Definition vm_frame_free (kpage : Z) : M unit :=
  lock_acquire ;;
  vm_frame_do_free kpage true ;;
  lock_release.

(** [vm_frame_remove_entry], lines 131-137. *)
Definition vm_frame_remove_entry (kpage : Z) : M unit :=
  lock_acquire ;;
  vm_frame_do_free kpage false ;;
  lock_release.

(** [clock_next_frame], lines 199-211.  The pointer returned is
    [list_entry (clock_ptr, ...)] for the new value of [clock_ptr]. *)
Definition clock_next_frame : M list_elem :=
  l ← gets frame_list;
  if list_empty l then halt PanicEmptyTable
  else
    cp ← gets clock_ptr;
    p ← match cp with
        | Null | ListEnd => mret (list_begin l)
        | Lelem a =>
            match list_next l a with
            | Some p => mret p
            | None => halt StalePointer
            end
        end;
    modify (set_clock_ptr p) ;;
    modify (λ s, set_scan_log (scan_log s ++ [p]) s) ;;
    mret p.

(** The loop of [clock_pick_evict_frame], lines 179-197, with [iters]
    iterations left; the PANIC of line 197 follows the last one. *)
Fixpoint clock_scan (iters : nat) (pagedir : Z) : M list_elem :=
  match iters with
  | O => halt PanicNoVictim
  | S iters' =>
      e ← clock_next_frame;
      f ← deref K e;
      if pinned f then clock_scan iters' pagedir
      else
        acc ← pagedir_is_accessed pagedir (upage f);
        if acc : bool then
          pagedir_set_accessed pagedir (upage f) false ;;
          clock_scan iters' pagedir
        else mret e
  end.

(** [clock_pick_evict_frame], lines 173-198: [it] runs from [0] to
    [n + n] included.  A [size_t] holds [n + n] for every table that fits
    in memory. *)
Definition clock_pick_evict_frame (pagedir : Z) : M list_elem :=
  n ← hash_size;
  if decide (n = 0%nat) then halt PanicEmptyTable
  else clock_scan (S (n + n)) pagedir.

(** Lines 74-94 of [vm_frame_allocate]: the body of the [if] entered when
    the first [palloc_get_page] returned null.  It yields the page of the
    second [palloc_get_page].  [cur] is [thread_current ()]. *)
Definition vm_frame_evict (cur : Z) : M Z :=
  f_evicted ← clock_pick_evict_frame (thread_pagedir K cur);
  ASSERT 81 (bool_decide (f_evicted ≠ Null)) ;;
  v ← deref K f_evicted;
  ASSERT 81 (bool_decide (t v ≠ 0)) ;;
  ASSERT 84 (bool_decide (thread_pagedir K (t v) ≠ 3435973836)) ;;
  pagedir_clear_page (thread_pagedir K (t v)) (upage v) ;;
  swap_idx ← vm_swap_out K (kpage v);
  vm_supt_set_swap (thread_supt K (t v)) (upage v) swap_idx ;;
  vm_frame_do_free (kpage v) true ;;
  frame_page ← palloc_get_page K;
  match frame_page with
  | Some p => mret p
  | None => halt (AssertFailed 94)
  end.

(** Lines 70-95 of [vm_frame_allocate]: the page the new entry is for. *)
Definition vm_frame_acquire (cur : Z) : M Z :=
  frame_page ← palloc_get_page K;
  match frame_page with
  | Some p => mret p
  | None => vm_frame_evict cur
  end.

(** [vm_frame_allocate], lines 65-115.  The null result is [None]. *)
Definition vm_frame_allocate (cur : Z) (upage0 : Z) : M (option Z) :=
  lock_acquire ;;
  frame_page ← vm_frame_acquire cur;
  frame ← malloc K;
  match frame with
  | None => lock_release ;; mret None
  | Some a =>
      modify (λ s, set_entries
                     (<[a := FTE frame_page upage0 cur false]> (entries s)) s) ;;
      hash_insert a ;;
      list_push_back a ;;
      lock_release ;;
      mret (Some frame_page)
  end.

(** [vm_frame_set_pinned], lines 214-232. *)
Definition vm_frame_set_pinned (kpage : Z) (new_value : bool) : M unit :=
  lock_acquire ;;
  h ← hash_find kpage;
  match h with
  | None => halt PanicNoSuchFrame
  | Some f =>
      es ← gets entries;
      match es !! f with
      | None => halt StalePointer
      | Some e =>
          modify (set_entries (<[f := set_pinned new_value e]> es)) ;;
          lock_release
      end
  end.

(** [vm_frame_unpin] and [vm_frame_pin], lines 234-242. *)
Definition vm_frame_unpin (kpage : Z) : M unit := vm_frame_set_pinned kpage false.
Definition vm_frame_pin (kpage : Z) : M unit := vm_frame_set_pinned kpage true.

End FrameTable.


(** ** The public interface *)

(** The six operations of §6, with their arguments. *)
Inductive public_op :=
| Initialize
| Allocate (cur upage0 : Z)
| FreeFrame (kpage0 : Z)
| FreeEntryOnly (kpage0 : Z)
| Pin (kpage0 : Z)
| Unpin (kpage0 : Z).

Definition run_op (K : kernel) (op : public_op) : M (option Z) :=
  match op with
  | Initialize => vm_frame_init ;; mret None
  | Allocate cur upage0 => vm_frame_allocate K cur upage0
  | FreeFrame kpage0 => vm_frame_free K kpage0 ;; mret None
  | FreeEntryOnly kpage0 => vm_frame_remove_entry K kpage0 ;; mret None
  | Pin kpage0 => vm_frame_pin kpage0 ;; mret None
  | Unpin kpage0 => vm_frame_unpin kpage0 ;; mret None
  end.

(** A history of public operations, run in order. *)
Fixpoint run_ops (K : kernel) (ops : list public_op) : M unit :=
  match ops with
  | [] => mret tt
  | op :: ops' => run_op K op ;; run_ops K ops'
  end.

(** ** Invariants *)

(** The entries of the Frame Registry and of the Eviction Order, as sets
    of entry records. *)
Definition registry_entries (s : state) : gset Z := map_img (frame_map s).
Definition order_entries (s : state) : gset Z := list_to_set (frame_list s).

(** The frame table is well formed: no record is linked twice into the
    list, the list and the hash hold the same records, every record of the
    hash is live and filed under its own [kpage], and no page of the table
    is free in the pool. *)
Definition table_ok (s : state) : Prop :=
  NoDup (frame_list s) ∧
  order_entries s = registry_entries s ∧
  map_Forall (λ k a, kpage <$> entries s !! a = Some k) (frame_map s) ∧
  dom (frame_map s) ## user_pool s.

Global Instance table_ok_dec s : Decision (table_ok s).
Proof. unfold table_ok. apply _. Defined.

(** What the theorems ask of the two allocators: the page handed out was
    free, the block returned is not a live one. *)
Definition kernel_ok (K : kernel) : Prop :=
  (∀ P k, palloc_pick K P = Some k → k ∈ P) ∧
  (∀ D a, malloc_pick K D = Some a → a ∉ D).

(** [s'] has the lock, the hash, the list, the entry records and the pool
    of [s]. *)
Definition same_table (s s' : state) : Prop :=
  frame_lock s' = frame_lock s ∧ frame_map s' = frame_map s ∧
  frame_list s' = frame_list s ∧ entries s' = entries s ∧
  user_pool s' = user_pool s.

(** The table after the entry at [f], filed under [k], has been removed
    by [vm_frame_do_free]. *)
Definition removed (k f : Z) (free_page : bool) (s : state) : state :=
  State (frame_lock s) (delete k (frame_map s))
        (filter (λ x, x ≠ f) (frame_list s)) (clock_ptr s)
        (delete f (entries s))
        (if free_page then {[k]} ∪ user_pool s else user_pool s)
        (accessed s)
        (trace s ++ (if free_page then [EvPallocFree k] else []) ++ [EvFree f])
        (scan_log s).

(** Partial correctness of a computation: from a state satisfying [P],
    a run that returns does so with a result and a state satisfying [Q]. *)
Definition hoare {A} (P : state → Prop) (m : M A) (Q : A → state → Prop) : Prop :=
  ∀ s a s', P s → m s = Done a s' → Q a s'.

(** The state [s] with [tr] appended to its trace. *)
Definition traced (tr : list event) (s : state) : state :=
  set_trace (trace s ++ tr) s.

(** What [vm_frame_allocate] does once it holds the lock and the first
    [palloc_get_page] has returned null, up to the second
    [palloc_get_page]: the state in which the scanner starts, and the
    calls made between the return of the scanner, in state [s1] with the
    victim [v] at address [a], and that second attempt. *)
Definition scan_start (s0 : state) : state :=
  traced [EvLockAcquire; EvPallocGet None] (set_frame_lock true s0).
Definition reclaim_calls (K : kernel) (a : Z) (v : frame_table_entry) : list event :=
  [EvClearPage (thread_pagedir K (t v)) (upage v);
   EvSwapOut (kpage v) (swap_pick K (kpage v));
   EvSuptSetSwap (thread_supt K (t v)) (upage v) (swap_pick K (kpage v));
   EvPallocFree (kpage v);
   EvFree a].
Definition reclaimed (K : kernel) (a : Z) (v : frame_table_entry) (s1 : state)
  : state :=
  removed (kpage v) a true
    (traced [EvClearPage (thread_pagedir K (t v)) (upage v);
             EvSwapOut (kpage v) (swap_pick K (kpage v));
             EvSuptSetSwap (thread_supt K (t v)) (upage v)
               (swap_pick K (kpage v))] s1).

(** The clock pointer is usable: null, the end of the list, or an element
    of the list. *)
Definition cursor_ok (s : state) : Prop :=
  match clock_ptr s with
  | Null | ListEnd => True
  | Lelem a => a ∈ frame_list s
  end.

(** The clock pointer after the elements [l1] of the list have been
    walked from its beginning: on the last of them, or not yet on the
    list. *)
Definition cursor_after (l1 : list Z) (p : list_elem) : Prop :=
  match last l1 with
  | None => p = Null ∨ p = ListEnd
  | Some a => p = Lelem a
  end.

(** The entry at [a] is live and not pinned. *)
Definition unpinned (s : state) (a : Z) : Prop :=
  ∃ e, entries s !! a = Some e ∧ pinned e = false.

Global Instance cursor_ok_dec s : Decision (cursor_ok s).
Proof. unfold cursor_ok. destruct (clock_ptr s); apply _. Defined.

(** The accessed-bit calls of a trace go to the page directory [pd]. *)
Definition queries_only (pd : Z) (tr : list event) : Prop :=
  Forall (λ ev, match ev with
                | EvIsAccessed pd' _ _ | EvSetAccessed pd' _ _ => pd' = pd
                | _ => True
                end) tr.

(** A call the scanner may make on the page directory [pd]: a query of an
    accessed bit, or the clearing of one. *)
Definition scanner_call (pd : Z) (ev : event) : Prop :=
  match ev with
  | EvIsAccessed pd' _ _ => pd' = pd
  | EvSetAccessed pd' _ v => pd' = pd ∧ v = false
  | _ => False
  end.

(** The state is inside the critical section entered after the trace
    [tr0]: the lock is held and no lock call has been made since it was
    taken. *)
Definition lock_event (ev : event) : Prop :=
  ev = EvLockAcquire ∨ ev = EvLockRelease.
Definition in_critical_section (tr0 : list event) (s : state) : Prop :=
  frame_lock s = true ∧
  ∃ tr, trace s = tr0 ++ EvLockAcquire :: tr ∧
        Forall (λ ev, ¬ lock_event ev) tr.

(** ** A concrete kernel

    The values of Pintos on a 32-bit machine: user addresses end at
    [PHYS_BASE], pages have 4096 bytes.  The pool hands out its lowest
    free page, in the way the bitmap of [palloc.c] is scanned; the heap
    has eight blocks of 32 bytes and returns the lowest free one, so that
    a block freed is the next one returned. *)
Module Pintos.

Definition PHYS_BASE : Z := 3221225472.
Definition PGMASK : Z := 4095.

Definition pick_lowest (P : gset Z) : option Z :=
  match elements P with
  | [] => None
  | x :: l => Some (foldr Z.min x l)
  end.

Definition blocks : list Z :=
  (λ i : nat, 3222274048 + 32 * Z.of_nat i) <$> seq 0 8.

Definition pick_block (D : gset Z) : option Z :=
  head (filter (λ a, a ∉ D) blocks).

(** The thread at address [th] has its page directory at [th + 1048576]
    and its supplemental page table at [th + 2097152]. *)
Definition kern (g : frame_table_entry) : kernel :=
  Kernel (λ v, bool_decide (PHYS_BASE ≤ v)) (λ v, Z.land v PGMASK)
         (λ th, th + 1048576) (λ th, th + 2097152)
         pick_lowest pick_block (λ _, 7) g.

(** The same kernel with an exhausted heap. *)
Definition kern_no_heap (g : frame_table_entry) : kernel :=
  Kernel (λ v, bool_decide (PHYS_BASE ≤ v)) (λ v, Z.land v PGMASK)
         (λ th, th + 1048576) (λ th, th + 2097152)
         pick_lowest (λ _, None) (λ _, 7) g.

(** The same kernel with a heap that hands out its highest free block. *)
Definition kern_no_reuse (g : frame_table_entry) : kernel :=
  Kernel (λ v, bool_decide (PHYS_BASE ≤ v)) (λ v, Z.land v PGMASK)
         (λ th, th + 1048576) (λ th, th + 2097152)
         pick_lowest (λ D, head (filter (λ a, a ∉ D) (reverse blocks)))
         (λ _, 7) g.

(** Two readings of the memory around the tail sentinel: a set [pinned]
    byte, and all zeroes but an owner. *)
Definition tail_pinned : frame_table_entry := FTE 0 0 0 true.
Definition tail_clear : frame_table_entry := FTE 0 0 3221229568 false.

(** A third reading: an owner, a clear [pinned] byte and, where [kpage]
    would be, the address of a page-aligned kernel page. *)
Definition tail_stray : frame_table_entry :=
  FTE 3222540288 0 3221229568 false.

(** Two user frames, three user pages, two threads. *)
Definition F1 : Z := 3222536192.
Definition F2 : Z := 3222540288.
Definition pageA : Z := 134512640.
Definition pageB : Z := 134516736.
Definition pageC : Z := 134520832.
Definition T1 : Z := 3221291008.
Definition T2 : Z := 3221295104.

(** The machine before [vm_frame_init], with the given free user frames. *)
Definition boot (pool : gset Z) : state :=
  State false ∅ [] Null ∅ pool ∅ [] [].

(** The machine after [vm_frame_init]. *)
Definition fresh (pool : gset Z) : state :=
  final (vm_frame_init (boot pool)).

(** After initialisation with one user frame, thread [T1] got a frame for
    page A, then one for page B, which evicted A; since then it has
    touched page B. *)
Definition one_frame (g : frame_table_entry) : state :=
  final ((vm_frame_init ;;
          vm_frame_allocate (kern g) T1 pageA ;;
          vm_frame_allocate (kern g) T1 pageB ;;
          pagedir_set_accessed (thread_pagedir (kern g) T1) pageB true)
           (boot {[F1]})).

(** After initialisation with two user frames, thread [T1] got one for
    page A and one for page B, and pinned the first. *)
Definition first_pinned (g : frame_table_entry) : state :=
  final ((vm_frame_init ;;
          vm_frame_allocate (kern g) T1 pageA ;;
          vm_frame_allocate (kern g) T1 pageB ;;
          vm_frame_pin F1)
           (boot {[F1; F2]})).

(** After initialisation with two user frames, thread [T1] got one for
    page A and one for page B, and pinned both. *)
Definition both_pinned : state :=
  final ((vm_frame_init ;;
          vm_frame_allocate (kern tail_pinned) T1 pageA ;;
          vm_frame_allocate (kern tail_pinned) T1 pageB ;;
          vm_frame_pin F1 ;;
          vm_frame_pin F2)
           (boot {[F1; F2]})).

(** After initialisation with two user frames, thread [T1] got one of
    them for page A. *)
Definition owned_by_T1_of_two : state :=
  final ((vm_frame_init ;; vm_frame_allocate (kern tail_pinned) T1 pageA)
           (boot {[F1; F2]})).

(** After initialisation with one user frame, thread [T1] got it for page
    A and has touched the page. *)
Definition owned_by_T1 (g : frame_table_entry) : state :=
  final ((vm_frame_init ;;
          vm_frame_allocate (kern g) T1 pageA ;;
          pagedir_set_accessed (thread_pagedir (kern g) T1) pageA true)
           (boot {[F1]})).

(** The record of the first and of the second allocation. *)
Definition block1 : Z := 3222274048.
Definition block2 : Z := 3222274080.

(** In [first_pinned], the entry of page B, and the state in which the
    scanner returns it to thread [T2]. *)
Definition entryB : frame_table_entry := FTE F2 pageB T1 false.
Definition picked_B : state :=
  final (clock_pick_evict_frame (kern tail_pinned)
           (thread_pagedir (kern tail_pinned) T2)
           (scan_start (first_pinned tail_pinned))).

End Pintos.
(** ** Reasoning about runs *)

Lemma bind_done {A B} (m : M A) (f : A → M B) s b s' :
  (m ≫= f) s = Done b s' ↔ ∃ a s1, m s = Done a s1 ∧ f a s1 = Done b s'.
Proof.
  unfold mbind, M_bind. split.
  - destruct (m s) as [a s1|e s1]; [eauto | discriminate].
  - intros (a & s1 & -> & H). exact H.
Qed.

Lemma bind_run {A B} (m : M A) (f : A → M B) s a s1 :
  m s = Done a s1 → (m ≫= f) s = f a s1.
Proof. unfold mbind, M_bind. by intros ->. Qed.

Lemma bind_halt {A B} (m : M A) (f : A → M B) s e s1 :
  m s = Halt e s1 → (m ≫= f) s = Halt e s1.
Proof. unfold mbind, M_bind. by intros ->. Qed.

(** Unfolds the primitive computations of the monad. *)
Ltac prim :=
  unfold lock_acquire, lock_release, hash_find, hash_delete, hash_size,
    list_push_back, list_remove, free, palloc_free_page, pagedir_clear_page,
    pagedir_is_accessed, pagedir_set_accessed, vm_supt_set_swap, vm_swap_out,
    emit, ASSERT, modify, gets, halt, mbind, M_bind, mret, M_ret in *.

(** Unfolds the field updates. *)
Ltac setters :=
  unfold traced, removed, set_frame_lock, set_frame_map, set_frame_list,
    set_clock_ptr, set_entries, set_user_pool, set_accessed, set_trace,
    set_scan_log in *; simpl in *.

(** [clock_next_frame] writes [clock_ptr] and the ghost log, nothing else,
    and never leaves [clock_ptr] null. *)
Lemma clock_next_frame_done s p s1 :
  clock_next_frame s = Done p s1 →
  s1 = set_scan_log (scan_log s ++ [p]) (set_clock_ptr p s) ∧ p ≠ Null.
Proof.
  unfold clock_next_frame. prim.
  destruct (frame_list s) as [|x l] eqn:El; simpl; [discriminate|].
  destruct (clock_ptr s) as [|a|]; simpl.
  - intros [= <- <-]. done.
  - destruct (decide (x = a)); simpl.
    + intros [= <- <-]. split; [done|]. by destruct l.
    + destruct (list_next l a) as [q|] eqn:Eq; [|discriminate].
      intros [= <- <-]. split; [done|].
      clear El. induction l as [|y l IH]; simpl in Eq; [discriminate|].
      destruct (decide (y = a)); [|by apply IH].
      injection Eq as <-. by destruct l.
  - intros [= <- <-]. done.
Qed.

Lemma clock_next_frame_entries s p s1 :
  clock_next_frame s = Done p s1 → entries s1 = entries s.
Proof. intros H. by destruct (clock_next_frame_done _ _ _ H) as [-> _]. Qed.

Lemma deref_fields K e s :
  deref K e s = match fields K (entries s) e with
                | Some f => Done f s
                | None => Halt StalePointer s
                end.
Proof.
  destruct e as [|a|]; simpl; [done| |done].
  unfold mbind, M_bind, gets. by destruct (entries s !! a).
Qed.

Lemma deref_done K e s f s1 :
  deref K e s = Done f s1 ↔ s1 = s ∧ fields K (entries s) e = Some f.
Proof.
  rewrite deref_fields. destruct (fields K (entries s) e) as [g|].
  - split; [by intros [= <- <-] | by intros [-> [= <-]]].
  - split; [discriminate | by intros [_ [=]]].
Qed.

(** A completed scan returns a pointer whose [pinned] field read false,
    and leaves the entry records as they were. *)
Lemma clock_scan_done K iters pagedir s e s' :
  clock_scan K iters pagedir s = Done e s' →
  entries s' = entries s ∧
  ∃ f, fields K (entries s) e = Some f ∧ pinned f = false.
Proof.
  revert s. induction iters as [|n IH]; intros s; simpl; [discriminate|].
  intros H. apply bind_done in H as (p & s1 & Hn & H).
  pose proof (clock_next_frame_entries _ _ _ Hn) as He1.
  apply bind_done in H as (f & s2 & Hd & H).
  apply deref_done in Hd as [-> Hf]. rewrite He1 in Hf.
  destruct (pinned f) eqn:Hp.
  - destruct (IH _ H) as (He & g & Hg & Hpg). rewrite He1 in He, Hg. eauto.
  - apply bind_done in H as (acc & s2 & Ha & H).
    assert (entries s2 = entries s1) as He2.
    { revert Ha. prim. by intros [= _ <-]. }
    destruct acc.
    + apply bind_done in H as ([] & s3 & Hc & H).
      assert (entries s3 = entries s2) as He3.
      { revert Hc. prim. by intros [= <-]. }
      destruct (IH _ H) as (He & g & Hg & Hpg).
      rewrite He3, He2, He1 in *. eauto.
    + injection H as <- <-. rewrite He2, He1. eauto.
Qed.

(** ** The deallocator *)

(** [vm_frame_do_free] in closed form. *)
Lemma vm_frame_do_free_run K k b s :
  vm_frame_do_free K k b s =
  if negb (frame_lock s) then Halt (AssertFailed 147) s
  else if negb (is_kernel_vaddr K k) then Halt (AssertFailed 148) s
  else if negb (bool_decide (pg_ofs K k = 0)) then Halt (AssertFailed 149) s
  else match frame_map s !! k with
       | None => Done tt s
       | Some f => Done tt (removed k f b s)
       end.
Proof.
  unfold vm_frame_do_free. prim.
  destruct (frame_lock s) eqn:Hl; simpl; [|done].
  destruct (is_kernel_vaddr K k); simpl; [|done].
  destruct (bool_decide (pg_ofs K k = 0)); simpl; [|done].
  destruct (frame_map s !! k) as [f|]; [|done].
  destruct b; setters; rewrite Hl; [|done].
  by rewrite <- (assoc_L (++)).
Qed.

Lemma lock_acquire_run s :
  frame_lock s = false →
  lock_acquire s = Done tt (traced [EvLockAcquire] (set_frame_lock true s)).
Proof. intros H. unfold lock_acquire. prim. by rewrite H. Qed.

Lemma lock_release_run s :
  frame_lock s = true →
  lock_release s = Done tt (traced [EvLockRelease] (set_frame_lock false s)).
Proof. intros H. unfold lock_release. prim. by rewrite H. Qed.

(** Taking the lock and giving it back only shows in the trace. *)
Lemma lock_round_trip s :
  frame_lock s = false →
  traced [EvLockRelease]
    (set_frame_lock false (traced [EvLockAcquire] (set_frame_lock true s)))
  = traced [EvLockAcquire; EvLockRelease] s.
Proof.
  intros H. destruct s; setters. subst.
  by rewrite <- (assoc_L (++)).
Qed.

Lemma ASSERT_run line b s : b = true → ASSERT line b s = Done tt s.
Proof. by intros ->. Qed.

(** ** Rules for [hoare] *)

Lemma hoare_bind {A B} P (m : M A) Q (f : A → M B) R :
  hoare P m Q → (∀ a, hoare (Q a) (f a) R) → hoare P (m ≫= f) R.
Proof.
  intros Hm Hf s b s' HP H. apply bind_done in H as (a & s1 & H1 & H2).
  eapply Hf; [|exact H2]. eapply Hm; eauto.
Qed.

Lemma hoare_weaken {A} (P P' : state → Prop) (m : M A) (Q Q' : A → state → Prop) :
  hoare P' m Q' → (∀ s, P s → P' s) → (∀ a s, Q' a s → Q a s) → hoare P m Q.
Proof. intros Hm HP HQ s a s' Hs H. apply HQ. eapply Hm; eauto. Qed.

Lemma hoare_ret {A} (Q : A → state → Prop) (a : A) : hoare (Q a) (mret a) Q.
Proof. intros s b s' HQ [= <- <-]. exact HQ. Qed.

Lemma hoare_halt {A} P (e : fault) (Q : A → state → Prop) : hoare P (halt e) Q.
Proof. intros s b s' _ [=]. Qed.

Lemma hoare_assert P line b : hoare P (ASSERT line b) (λ _, P).
Proof. intros s [] s' HP. destruct b; simpl; [by intros [= <-] | discriminate]. Qed.

Lemma hoare_modify (P Q : state → Prop) (f : state → state) :
  (∀ s, P s → Q (f s)) → hoare P (modify f) (λ _, Q).
Proof. intros Hf s [] s' HP [= <-]. by apply Hf. Qed.

Lemma hoare_deref K P e : hoare P (deref K e) (λ _, P).
Proof. intros s f s' HP H. apply deref_done in H as [-> _]. exact HP. Qed.

(** ** The frame table stays well formed *)

Lemma table_ok_ext s s' :
  frame_map s' = frame_map s → frame_list s' = frame_list s →
  entries s' = entries s → user_pool s' = user_pool s →
  table_ok s → table_ok s'.
Proof.
  intros Hm Hl He Hp (H1 & H2 & H3 & H4).
  unfold table_ok, order_entries, registry_entries in *.
  by rewrite Hm, Hl, He, Hp.
Qed.

Lemma same_table_ok s s' : same_table s s' → table_ok s → table_ok s'.
Proof. intros (_ & Hm & Hl & He & Hp). by apply table_ok_ext. Qed.

Lemma table_ok_lookup s k a :
  table_ok s → frame_map s !! k = Some a →
  a ∈ frame_list s ∧ ∃ e, entries s !! a = Some e ∧ kpage e = k.
Proof.
  intros (_ & Hs & Hf & _) Hk. split.
  - apply (elem_of_list_to_set (C := gset Z)).
    unfold order_entries, registry_entries in Hs. rewrite Hs.
    apply elem_of_map_img. eauto.
  - specialize (Hf _ _ Hk). simpl in Hf.
    destruct (entries s !! a) as [e|]; [|discriminate].
    injection Hf as Hf. eauto.
Qed.

Lemma table_ok_elem s a :
  table_ok s → a ∈ frame_list s →
  ∃ e, entries s !! a = Some e ∧ frame_map s !! kpage e = Some a.
Proof.
  intros Hok Ha. pose proof Hok as (_ & Hs & _).
  apply (elem_of_list_to_set (C := gset Z)) in Ha.
  unfold order_entries, registry_entries in Hs. rewrite Hs in Ha.
  apply elem_of_map_img in Ha as [k Hk].
  destruct (table_ok_lookup _ _ _ Hok Hk) as (_ & e & He & <-). eauto.
Qed.

(** Two keys of the hash never lead to the same record. *)
Lemma table_ok_inj s k k' a :
  table_ok s → frame_map s !! k = Some a → frame_map s !! k' = Some a → k = k'.
Proof.
  intros Hok H1 H2.
  destruct (table_ok_lookup _ _ _ Hok H1) as (_ & e & He & <-).
  destruct (table_ok_lookup _ _ _ Hok H2) as (_ & e' & He' & <-).
  congruence.
Qed.

Lemma table_ok_removed s k f b :
  table_ok s → frame_map s !! k = Some f → table_ok (removed k f b s).
Proof.
  intros Hok Hk. pose proof Hok as (Hnd & Hs & Hf & Hd).
  unfold table_ok, order_entries, registry_entries in *. simpl.
  split; [by apply NoDup_filter|].
  split; [|split].
  - apply set_eq. intros x.
    rewrite elem_of_list_to_set, list_elem_of_filter, elem_of_map_img.
    rewrite <- (elem_of_list_to_set (C := gset Z)), Hs, elem_of_map_img.
    split.
    + intros (Hne & k' & Hk'). exists k'.
      rewrite lookup_delete_ne; [done|]. intros <-. congruence.
    + intros (k' & Hk'). apply lookup_delete_Some in Hk' as [Hne Hk'].
      split; [|eauto]. intros ->. apply Hne.
      eapply table_ok_inj; eauto.
  - intros k' a' Hk'. apply lookup_delete_Some in Hk' as [Hne Hk']. simpl.
    rewrite lookup_delete_ne; [by apply (Hf _ _ Hk')|].
    intros <-. apply Hne. eapply table_ok_inj; eauto.
  - rewrite dom_delete_L. destruct b; set_solver.
Qed.

Lemma hoare_do_free K k b :
  hoare table_ok (vm_frame_do_free K k b) (λ _, table_ok).
Proof.
  intros s [] s' Hok. rewrite vm_frame_do_free_run.
  repeat case_match; try discriminate; intros [= <-]; [|done].
  by apply table_ok_removed.
Qed.

Lemma hoare_emit e : hoare table_ok (emit e) (λ _, table_ok).
Proof.
  apply hoare_modify. intros s Hok. eapply same_table_ok; [|exact Hok]. by unfold same_table.
Qed.

Lemma hoare_lock_acquire : hoare table_ok lock_acquire (λ _, table_ok).
Proof.
  intros s [] s' Hok. unfold lock_acquire. prim.
  destruct (frame_lock s); [discriminate|]. intros [= <-].
  by eapply table_ok_ext; [..|exact Hok].
Qed.

Lemma hoare_lock_release : hoare table_ok lock_release (λ _, table_ok).
Proof.
  intros s [] s' Hok. unfold lock_release. prim.
  destruct (frame_lock s); [|discriminate]. intros [= <-].
  by eapply table_ok_ext; [..|exact Hok].
Qed.

Lemma same_table_refl s : same_table s s.
Proof. by unfold same_table. Qed.

Lemma same_table_trans s1 s2 s3 :
  same_table s1 s2 → same_table s2 s3 → same_table s1 s3.
Proof.
  unfold same_table. intros (-> & -> & -> & -> & ->) (-> & -> & -> & -> & ->).
  done.
Qed.

Lemma final_bind {A B} (m : M A) (f : A → M B) s :
  final ((m ≫= f) s) = match m s with
                       | Done a s1 => final (f a s1)
                       | Halt _ s1 => s1
                       end.
Proof. unfold mbind, M_bind. by destruct (m s). Qed.

(** The scanner leaves the table alone, however it ends. *)
Lemma clock_next_frame_same s : same_table s (final (clock_next_frame s)).
Proof.
  destruct (clock_next_frame s) as [p s1|e s1] eqn:H; simpl.
  - apply clock_next_frame_done in H as [-> _]. by unfold same_table.
  - revert H. unfold clock_next_frame. prim.
    destruct (list_empty (frame_list s)); [by intros [= _ <-]|].
    destruct (clock_ptr s) as [|a|]; simpl; try discriminate.
    destruct (list_next (frame_list s) a); simpl; [discriminate|].
    by intros [= _ <-].
Qed.

Lemma clock_scan_same K iters pagedir s :
  same_table s (final (clock_scan K iters pagedir s)).
Proof.
  revert s. induction iters as [|n IH]; intros s; simpl; [apply same_table_refl|].
  rewrite final_bind. pose proof (clock_next_frame_same s) as Hn.
  destruct (clock_next_frame s) as [p s1|e s1]; simpl in Hn; [|done].
  rewrite final_bind, deref_fields.
  destruct (fields K (entries s1) p) as [f|]; [|done].
  destruct (pinned f).
  { eapply same_table_trans; [exact Hn | apply IH]. }
  prim. destruct (bool_decide _).
  - eapply same_table_trans; [exact Hn|].
    eapply same_table_trans; [|apply IH]. by unfold same_table.
  - simpl. eapply same_table_trans; [exact Hn|]. by unfold same_table.
Qed.

Lemma clock_pick_same K pagedir s :
  same_table s (final (clock_pick_evict_frame K pagedir s)).
Proof.
  unfold clock_pick_evict_frame. prim.
  destruct (decide _); [apply same_table_refl|]. apply clock_scan_same.
Qed.

Lemma hoare_clock_pick K pagedir :
  hoare table_ok (clock_pick_evict_frame K pagedir) (λ _, table_ok).
Proof.
  intros s e s' Hok H. pose proof (clock_pick_same K pagedir s) as Hs.
  rewrite H in Hs. by eapply same_table_ok.
Qed.

Lemma hoare_palloc_get_page K :
  kernel_ok K →
  hoare table_ok (palloc_get_page K)
    (λ r s, table_ok s ∧
            ∀ p, r = Some p → frame_map s !! p = None ∧ p ∉ user_pool s).
Proof.
  intros [Hpick _] s r s' Hok. unfold palloc_get_page. prim.
  destruct (palloc_pick K (user_pool s)) as [p|] eqn:Hp; intros [= ? ?]; subst.
  - destruct Hok as (H1 & H2 & H3 & H4). apply Hpick in Hp. split.
    + unfold table_ok, order_entries, registry_entries in *. simpl.
      repeat split; try done. set_solver.
    + intros ? [= <-]. simpl. split; [|set_solver].
      apply not_elem_of_dom. set_solver.
  - split; [|done]. eapply same_table_ok; [|exact Hok]. by unfold same_table.
Qed.

Lemma hoare_evict K cur :
  kernel_ok K →
  hoare table_ok (vm_frame_evict K cur)
    (λ p s, table_ok s ∧ frame_map s !! p = None ∧ p ∉ user_pool s).
Proof.
  intros HK. unfold vm_frame_evict.
  eapply hoare_bind; [apply hoare_clock_pick|]. intros e. simpl.
  eapply hoare_bind; [apply hoare_assert|]. intros []; simpl.
  eapply hoare_bind; [apply hoare_deref|]. intros v. simpl.
  eapply hoare_bind; [apply hoare_assert|]. intros []; simpl.
  eapply hoare_bind; [apply hoare_assert|]. intros []; simpl.
  eapply hoare_bind; [apply hoare_emit|]. intros []; simpl.
  eapply hoare_bind.
  { unfold vm_swap_out. eapply hoare_bind; [apply hoare_emit|].
    intros []. apply (hoare_ret (λ _, table_ok)). }
  intros idx. simpl.
  eapply hoare_bind; [apply hoare_emit|]. intros []; simpl.
  eapply hoare_bind; [apply hoare_do_free|]. intros []; simpl.
  eapply hoare_bind; [by apply hoare_palloc_get_page|]. intros [p|]; simpl.
  - intros s q s' [Hok Hfresh] [= <- <-]. split; [done|]. by apply Hfresh.
  - apply hoare_halt.
Qed.

Lemma hoare_acquire K cur :
  kernel_ok K →
  hoare table_ok (vm_frame_acquire K cur)
    (λ p s, table_ok s ∧ frame_map s !! p = None ∧ p ∉ user_pool s).
Proof.
  intros HK. unfold vm_frame_acquire.
  eapply hoare_bind; [by apply hoare_palloc_get_page|]. intros [p|]; simpl.
  - intros s q s' [Hok Hfresh] [= <- <-]. split; [done|]. by apply Hfresh.
  - eapply hoare_weaken; [by apply hoare_evict| |]; naive_solver.
Qed.

(** The new record is linked into both containers. *)
Lemma table_ok_insert s a e :
  table_ok s → entries s !! a = None →
  frame_map s !! kpage e = None → kpage e ∉ user_pool s →
  table_ok (set_frame_list (frame_list s ++ [a])
              (set_frame_map (<[kpage e := a]> (frame_map s))
                 (set_entries (<[a := e]> (entries s)) s))).
Proof.
  intros Hok Ha Hk Hp. pose proof Hok as (Hnd & Hs & Hf & Hd).
  assert (a ∉ frame_list s) as Hnot.
  { intros Hin. destruct (table_ok_elem _ _ Hok Hin) as (e' & He' & _).
    congruence. }
  unfold table_ok, order_entries, registry_entries in *. setters.
  split; [|split; [|split]].
  - apply NoDup_app. split; [done|]. split; [|apply NoDup_singleton].
    intros x Hx ->%list_elem_of_singleton. done.
  - rewrite list_to_set_app_L, Hs. simpl.
    rewrite map_img_insert_notin_L by done. set_solver.
  - apply map_Forall_insert; [done|]. split.
    + by rewrite lookup_insert_eq.
    + intros k' a' Hk'. simpl. rewrite lookup_insert_ne; [by apply (Hf _ _ Hk')|].
      intros <-. specialize (Hf _ _ Hk'). simpl in Hf. by rewrite Ha in Hf.
  - rewrite dom_insert_L. set_solver.
Qed.

Lemma hoare_allocate K cur upage0 :
  kernel_ok K → hoare table_ok (vm_frame_allocate K cur upage0) (λ _, table_ok).
Proof.
  intros HK. unfold vm_frame_allocate.
  eapply hoare_bind; [apply hoare_lock_acquire|]. intros []; simpl.
  eapply hoare_bind; [by apply hoare_acquire|]. intros p; simpl.
  intros s r s' (Hok & Hfresh & Hpool) H.
  apply bind_done in H as (fr & s1 & Hm & H).
  unfold malloc in Hm. prim. injection Hm as <- <-.
  destruct (malloc_pick K (dom (entries s))) as [a|] eqn:Ha; simpl in H.
  - destruct HK as [_ Hheap]. apply Hheap, not_elem_of_dom in Ha.
    unfold hash_insert in H. prim. simpl in H.
    rewrite lookup_insert_eq in H. simpl in H. rewrite Hfresh in H.
    pose proof (table_ok_insert s a (FTE p upage0 cur false) Hok Ha Hfresh Hpool)
      as Hins.
    setters. destruct (frame_lock s); [|discriminate]. injection H as <- <-.
    by eapply table_ok_ext; [..|exact Hins].
  - setters. destruct (frame_lock s); [|discriminate]. injection H as <- <-.
    by eapply table_ok_ext; [..|exact Hok].
Qed.

Lemma hoare_set_pinned kpage0 v :
  hoare table_ok (vm_frame_set_pinned kpage0 v) (λ _, table_ok).
Proof.
  intros s [] s' Hok. unfold vm_frame_set_pinned, lock_acquire. prim.
  destruct (frame_lock s); [discriminate|]. simpl.
  destruct (frame_map s !! kpage0) as [f|] eqn:Hk; [|discriminate]. setters.
  destruct (entries s !! f) as [e|] eqn:He; [|discriminate]. simpl.
  intros [= <-]. destruct Hok as (Hnd & Hs & Hf & Hd).
  unfold table_ok, order_entries, registry_entries in *. setters.
  repeat split; try done.
  intros k a Hka. simpl. destruct (decide (a = f)) as [->|Hne].
  - rewrite lookup_insert_eq. simpl. specialize (Hf _ _ Hka). simpl in Hf.
    by rewrite He in Hf.
  - rewrite lookup_insert_ne by done. apply (Hf _ _ Hka).
Qed.

Lemma table_ok_init s s' : vm_frame_init s = Done tt s' → table_ok s'.
Proof.
  unfold vm_frame_init. prim. intros [= <-].
  unfold table_ok, order_entries, registry_entries. setters.
  split; [apply NoDup_nil_2|]. split; [by rewrite map_img_empty_L|].
  split; [apply map_Forall_empty|]. set_solver.
Qed.

Lemma hoare_locked_free K k b :
  hoare table_ok (lock_acquire ;; vm_frame_do_free K k b ;; lock_release)
    (λ _, table_ok).
Proof.
  eapply hoare_bind; [apply hoare_lock_acquire|]. intros []; simpl.
  eapply hoare_bind; [apply hoare_do_free|]. intros []; simpl.
  apply hoare_lock_release.
Qed.

(** Every public operation that returns leaves a well-formed table. *)
Lemma run_op_table_ok K op s r s' :
  kernel_ok K → op = Initialize ∨ table_ok s →
  run_op K op s = Done r s' → table_ok s'.
Proof.
  intros HK Hpre H.
  destruct op as [|cur up|k|k|k|k]; simpl in H.
  { apply bind_done in H as ([] & s1 & H1 & [= _ <-]). by eapply table_ok_init. }
  all: destruct Hpre as [|Hok]; [discriminate|].
  - by eapply hoare_allocate.
  - apply bind_done in H as ([] & s1 & H1 & [= _ <-]).
    by eapply (hoare_locked_free K k true).
  - apply bind_done in H as ([] & s1 & H1 & [= _ <-]).
    by eapply (hoare_locked_free K k false).
  - apply bind_done in H as ([] & s1 & H1 & [= _ <-]).
    by eapply hoare_set_pinned.
  - apply bind_done in H as ([] & s1 & H1 & [= _ <-]).
    by eapply hoare_set_pinned.
Qed.

(** The concrete kernel meets [kernel_ok]. *)
Lemma pick_lowest_elem P k : Pintos.pick_lowest P = Some k → k ∈ P.
Proof.
  unfold Pintos.pick_lowest. destruct (elements P) as [|x l] eqn:El; [done|].
  intros [= <-]. apply elem_of_elements. rewrite El.
  clear El. induction l as [|y l IH]; simpl; [by left|].
  destruct (Z.min_spec y (foldr Z.min x l)) as [[_ ->]|[_ ->]].
  - right. by left.
  - apply elem_of_cons in IH as [->|IH]; [by left|]. right. by right.
Qed.

Lemma pick_block_fresh D a : Pintos.pick_block D = Some a → a ∉ D.
Proof.
  unfold Pintos.pick_block. intros H. apply head_Some_elem_of in H.
  by apply list_elem_of_filter in H as [H _].
Qed.

Lemma kern_ok g : kernel_ok (Pintos.kern g).
Proof. split; [apply pick_lowest_elem | apply pick_block_fresh]. Qed.

Lemma kern_no_heap_ok g : kernel_ok (Pintos.kern_no_heap g).
Proof. split; [apply pick_lowest_elem | done]. Qed.

(** ** What the scanner returns is linked into the list *)

Lemma list_begin_elem l x : list_begin l = Lelem x → x ∈ l.
Proof. destruct l; [discriminate|]. intros [= ->]. by left. Qed.

Lemma list_next_elem l a x : list_next l a = Some (Lelem x) → x ∈ l.
Proof.
  induction l as [|y l IH]; simpl; [discriminate|].
  destruct (decide (y = a)).
  - intros [= H]. right. by apply list_begin_elem.
  - intros H. right. by apply IH.
Qed.

Lemma clock_next_frame_elem s a s1 :
  clock_next_frame s = Done (Lelem a) s1 → a ∈ frame_list s.
Proof.
  unfold clock_next_frame. prim.
  destruct (list_empty (frame_list s)); [discriminate|].
  destruct (clock_ptr s) as [|c|]; simpl.
  - intros [= H _]. by apply list_begin_elem.
  - destruct (list_next (frame_list s) c) as [q|] eqn:Hq; [|discriminate].
    intros [= -> _]. by eapply list_next_elem.
  - intros [= H _]. by apply list_begin_elem.
Qed.

Lemma clock_scan_elem K iters pagedir s a s' :
  clock_scan K iters pagedir s = Done (Lelem a) s' → a ∈ frame_list s.
Proof.
  revert s. induction iters as [|n IH]; intros s; simpl; [discriminate|].
  intros H. apply bind_done in H as (p & s1 & Hn & H).
  pose proof (clock_next_frame_same s) as Hs. rewrite Hn in Hs.
  destruct Hs as (_ & _ & Hl & _). simpl in Hl.
  apply bind_done in H as (f & s2 & Hd & H).
  apply deref_done in Hd as [-> Hf].
  destruct (pinned f).
  { rewrite <- Hl. by apply IH. }
  prim. destruct (bool_decide _).
  - rewrite <- Hl. by apply IH in H.
  - injection H as -> _. by eapply clock_next_frame_elem.
Qed.

Lemma clock_pick_elem K pagedir s a s' :
  clock_pick_evict_frame K pagedir s = Done (Lelem a) s' → a ∈ frame_list s.
Proof.
  unfold clock_pick_evict_frame. prim. destruct (decide _); [discriminate|].
  apply clock_scan_elem.
Qed.

(** ** The scanner never picks a pinned entry *)

(** C1: an entry whose [pinned] flag is set is never the result of
    [clock_pick_evict_frame], nor of its loop whatever the number of
    iterations it is given. *)
Theorem pinned_entry_never_victim K pagedir s a f :
  entries s !! a = Some f → pinned f = true →
  (∀ s', clock_pick_evict_frame K pagedir s ≠ Done (Lelem a) s') ∧
  (∀ iters s', clock_scan K iters pagedir s ≠ Done (Lelem a) s').
Proof.
  intros Ha Hp.
  assert (∀ iters s', clock_scan K iters pagedir s ≠ Done (Lelem a) s') as Hloop.
  { intros iters s' H. apply clock_scan_done in H as (_ & g & Hg & Hpg).
    simpl in Hg. congruence. }
  split; [|exact Hloop].
  intros s' H. unfold clock_pick_evict_frame in H.
  apply bind_done in H as (n & s1 & Hn & H).
  unfold hash_size, gets in Hn. injection Hn as <- <-.
  destruct (decide (size (frame_map s) = 0%nat)); [discriminate|].
  by apply Hloop in H.
Qed.

(** With the first of two entries pinned, the scanner passes over it and
    returns the second. *)
Example scan_skips_pinned :
  verdict (clock_pick_evict_frame (Pintos.kern Pintos.tail_pinned) 0
             (Pintos.first_pinned Pintos.tail_pinned))
  = inl (Lelem 3222274080).
Proof. vm_compute. reflexivity. Qed.

Lemma pinned_entry_never_victim_witness :
  (∀ s', clock_pick_evict_frame (Pintos.kern Pintos.tail_pinned) 0
           (Pintos.first_pinned Pintos.tail_pinned) ≠ Done (Lelem 3222274048) s') ∧
  (∀ iters s', clock_scan (Pintos.kern Pintos.tail_pinned) iters 0
           (Pintos.first_pinned Pintos.tail_pinned) ≠ Done (Lelem 3222274048) s').
Proof.
  apply (pinned_entry_never_victim _ _ _ _
           (FTE Pintos.F1 Pintos.pageA Pintos.T1 true)).
  - vm_compute. reflexivity.
  - reflexivity.
Defined.

(** ** Freeing a frame the table does not hold *)

(** C10: [vm_frame_free] and [vm_frame_remove_entry] fail the assertion
    of line 148 or of line 149 when the address passed is not a kernel
    address or is not page aligned, whether the table holds it or not. *)
Theorem free_asserts_kernel_page K kpage0 s :
  frame_lock s = false →
  is_kernel_vaddr K kpage0 = false ∨ pg_ofs K kpage0 ≠ 0 →
  ∃ line s',
    (line = 148%nat ∨ line = 149%nat) ∧
    vm_frame_free K kpage0 s = Halt (AssertFailed line) s' ∧
    vm_frame_remove_entry K kpage0 s = Halt (AssertFailed line) s'.
Proof.
  intros Hl Hbad. unfold vm_frame_free, vm_frame_remove_entry.
  rewrite !(bind_run _ _ _ _ _ (lock_acquire_run s Hl)).
  set (s1 := traced _ _).
  destruct (is_kernel_vaddr K kpage0) eqn:Hk.
  - destruct Hbad as [|Hofs]; [done|].
    exists 149%nat, s1. split; [by right|].
    split; apply bind_halt; rewrite vm_frame_do_free_run; simpl; rewrite Hk; simpl;
      by rewrite bool_decide_eq_false_2.
  - exists 148%nat, s1. split; [by left|].
    split; apply bind_halt; rewrite vm_frame_do_free_run; simpl; by rewrite Hk.
Qed.

Lemma free_asserts_kernel_page_witness :
  ∃ line s',
    (line = 148%nat ∨ line = 149%nat) ∧
    vm_frame_free (Pintos.kern Pintos.tail_pinned) Pintos.pageA
      (Pintos.fresh ∅) = Halt (AssertFailed line) s' ∧
    vm_frame_remove_entry (Pintos.kern Pintos.tail_pinned) Pintos.pageA
      (Pintos.fresh ∅) = Halt (AssertFailed line) s'.
Proof.
  apply free_asserts_kernel_page.
  - reflexivity.
  - left. vm_compute. reflexivity.
Defined.

(** An unaligned kernel address fails the second assertion. *)
Example free_unaligned :
  verdict (vm_frame_free (Pintos.kern Pintos.tail_pinned) (Pintos.F1 + 4)
             (Pintos.fresh ∅))
  = inr (AssertFailed 149).
Proof. vm_compute. reflexivity. Qed.

(** C9, as the code has it: for a page-aligned kernel address that the
    table does not hold, [vm_frame_free] and [vm_frame_remove_entry]
    return and change nothing but the trace, to which they add the lock
    round trip; and a second call after a completed one meets that case. *)
Theorem free_absent_is_noop K kpage0 s :
  frame_lock s = false →
  is_kernel_vaddr K kpage0 = true → pg_ofs K kpage0 = 0 →
  (frame_map s !! kpage0 = None →
     vm_frame_free K kpage0 s = Done tt (traced [EvLockAcquire; EvLockRelease] s) ∧
     vm_frame_remove_entry K kpage0 s
       = Done tt (traced [EvLockAcquire; EvLockRelease] s)) ∧
  (∀ s1, vm_frame_free K kpage0 s = Done tt s1 ∨
         vm_frame_remove_entry K kpage0 s = Done tt s1 →
     vm_frame_free K kpage0 s1 = Done tt (traced [EvLockAcquire; EvLockRelease] s1) ∧
     vm_frame_remove_entry K kpage0 s1
       = Done tt (traced [EvLockAcquire; EvLockRelease] s1)).
Proof.
  intros Hl Hk Hofs.
  assert (∀ b s0, frame_lock s0 = false → frame_map s0 !! kpage0 = None →
            (lock_acquire ;; vm_frame_do_free K kpage0 b ;; lock_release) s0
            = Done tt (traced [EvLockAcquire; EvLockRelease] s0)) as Hnoop.
  { intros b s0 Hl0 Hab.
    rewrite (bind_run _ _ _ _ _ (lock_acquire_run s0 Hl0)).
    erewrite bind_run.
    2:{ rewrite vm_frame_do_free_run. simpl. rewrite Hk. simpl.
        rewrite bool_decide_eq_true_2 by done. simpl. rewrite Hab. done. }
    rewrite lock_release_run by done. by rewrite lock_round_trip. }
  assert (∀ b s1, (lock_acquire ;; vm_frame_do_free K kpage0 b ;; lock_release) s
                  = Done tt s1 →
            frame_lock s1 = false ∧ frame_map s1 !! kpage0 = None) as Hgone.
  { intros b s1.
    rewrite (bind_run _ _ _ _ _ (lock_acquire_run s Hl)).
    rewrite bind_done. intros ([] & s2 & Hf & Hr).
    rewrite vm_frame_do_free_run in Hf. simpl in Hf. rewrite Hk in Hf. simpl in Hf.
    rewrite bool_decide_eq_true_2 in Hf by done. simpl in Hf.
    destruct (frame_map s !! kpage0) as [f|] eqn:Hm; injection Hf as <-;
      rewrite lock_release_run in Hr by done; injection Hr as <-; simpl.
    - split; [done|]. apply lookup_delete_eq.
    - done. }
  split.
  - intros Hab. split; apply Hnoop; done.
  - intros s1 [H|H]; apply Hgone in H as [Hl1 Hab1]; split; by apply Hnoop.
Qed.

Lemma free_absent_is_noop_witness :
  (frame_map (Pintos.one_frame Pintos.tail_pinned) !! Pintos.F2 = None →
     vm_frame_free (Pintos.kern Pintos.tail_pinned) Pintos.F2
       (Pintos.one_frame Pintos.tail_pinned)
     = Done tt (traced [EvLockAcquire; EvLockRelease]
                  (Pintos.one_frame Pintos.tail_pinned)) ∧
     vm_frame_remove_entry (Pintos.kern Pintos.tail_pinned) Pintos.F2
       (Pintos.one_frame Pintos.tail_pinned)
     = Done tt (traced [EvLockAcquire; EvLockRelease]
                  (Pintos.one_frame Pintos.tail_pinned))) ∧
  (∀ s1, vm_frame_free (Pintos.kern Pintos.tail_pinned) Pintos.F2
           (Pintos.one_frame Pintos.tail_pinned) = Done tt s1 ∨
         vm_frame_remove_entry (Pintos.kern Pintos.tail_pinned) Pintos.F2
           (Pintos.one_frame Pintos.tail_pinned) = Done tt s1 →
     vm_frame_free (Pintos.kern Pintos.tail_pinned) Pintos.F2 s1
     = Done tt (traced [EvLockAcquire; EvLockRelease] s1) ∧
     vm_frame_remove_entry (Pintos.kern Pintos.tail_pinned) Pintos.F2 s1
     = Done tt (traced [EvLockAcquire; EvLockRelease] s1)).
Proof.
  apply free_absent_is_noop; vm_compute; reflexivity.
Defined.

(** C9 as stated fails: a user address that the table does not hold is
    not passed over in silence, the call stops at the assertion of line
    148. *)
Lemma free_absent_user_address_fatal :
  frame_map (Pintos.fresh ∅) !! Pintos.pageA = None ∧
  verdict (vm_frame_free (Pintos.kern Pintos.tail_pinned) Pintos.pageA
             (Pintos.fresh ∅))
  = inr (AssertFailed 148) ∧
  verdict (vm_frame_remove_entry (Pintos.kern Pintos.tail_pinned) Pintos.pageA
             (Pintos.fresh ∅))
  = inr (AssertFailed 148).
Proof. vm_compute. done. Qed.

(** ** The hash and the list hold the same entries *)

Lemma run_ops_table_ok K ops s s' :
  kernel_ok K → table_ok s → run_ops K ops s = Done tt s' → table_ok s'.
Proof.
  intros HK. revert s. induction ops as [|op ops IH]; intros s Hok; simpl.
  - by intros [= <-].
  - intros H. apply bind_done in H as (r & s1 & H1 & H2).
    eapply IH; [|exact H2]. eapply run_op_table_ok; eauto.
Qed.

(** C6: once a public operation has returned, the records of the hash
    are those of the list.  This holds for an operation started from a
    well-formed table, which it leaves well formed, and for the
    initialisation; hence after every history of operations that begins
    with the initialisation. *)
Theorem registry_matches_order K :
  kernel_ok K →
  (∀ op s r s',
     op = Initialize ∨ table_ok s → run_op K op s = Done r s' →
     registry_entries s' = order_entries s' ∧ table_ok s') ∧
  (∀ ops s s',
     run_ops K (Initialize :: ops) s = Done tt s' →
     registry_entries s' = order_entries s').
Proof.
  intros HK. split.
  - intros op s r s' Hpre H.
    pose proof (run_op_table_ok _ _ _ _ _ HK Hpre H) as Hok.
    split; [|done]. by destruct Hok as (_ & -> & _).
  - intros ops s s' H. simpl in H.
    apply bind_done in H as (r & s1 & H1 & H2).
    assert (table_ok s1) as Hok1.
    { eapply (run_op_table_ok K Initialize); eauto. }
    pose proof (run_ops_table_ok _ _ _ _ HK Hok1 H2) as Hok.
    by destruct Hok as (_ & -> & _).
Qed.

Lemma registry_matches_order_witness :
  ∃ s',
    run_ops (Pintos.kern Pintos.tail_pinned)
      [Initialize; Allocate Pintos.T1 Pintos.pageA;
       Allocate Pintos.T1 Pintos.pageB; Pin Pintos.F1;
       Allocate Pintos.T2 Pintos.pageC; Unpin Pintos.F1;
       FreeEntryOnly Pintos.F2; FreeFrame Pintos.F1; FreeFrame Pintos.F1]
      (Pintos.boot {[Pintos.F1; Pintos.F2]}) = Done tt s' ∧
    registry_entries s' = order_entries s'.
Proof.
  eexists. split; [vm_compute; reflexivity|].
  apply (proj2 (registry_matches_order (Pintos.kern Pintos.tail_pinned)
                  (kern_ok Pintos.tail_pinned))
           [Allocate Pintos.T1 Pintos.pageA;
            Allocate Pintos.T1 Pintos.pageB; Pin Pintos.F1;
            Allocate Pintos.T2 Pintos.pageC; Unpin Pintos.F1;
            FreeEntryOnly Pintos.F2; FreeFrame Pintos.F1; FreeFrame Pintos.F1]
           (Pintos.boot {[Pintos.F1; Pintos.F2]})).
  vm_compute. reflexivity.
Defined.

(** ** The eviction sequence *)

(** The calls of [vm_frame_evict] after the scanner has returned the
    entry [v] at address [a], in closed form. *)
Lemma vm_frame_evict_run K cur s a v s1 :
  table_ok s → frame_lock s = true →
  clock_pick_evict_frame K (thread_pagedir K cur) s = Done (Lelem a) s1 →
  entries s !! a = Some v →
  t v ≠ 0 → thread_pagedir K (t v) ≠ 3435973836 →
  is_kernel_vaddr K (kpage v) = true → pg_ofs K (kpage v) = 0 →
  frame_map s !! kpage v = Some a ∧
  vm_frame_evict K cur s
  = (frame_page ← palloc_get_page K;
     match frame_page with
     | Some p => mret p
     | None => halt (AssertFailed 94)
     end) (reclaimed K a v s1).
Proof.
  intros Hok Hl Hpick Ha Ht Hpd Hk Hofs.
  pose proof (clock_pick_same K (thread_pagedir K cur) s) as Hs.
  rewrite Hpick in Hs. destruct Hs as (Hl1 & Hm1 & Hli1 & He1 & Hp1).
  simpl in *.
  assert (frame_map s !! kpage v = Some a) as Hreg.
  { apply clock_pick_elem in Hpick.
    destruct (table_ok_elem _ _ Hok Hpick) as (e & He & Hm). congruence. }
  split; [done|].
  unfold vm_frame_evict. rewrite (bind_run _ _ _ _ _ Hpick).
  rewrite (bind_run _ _ _ tt s1) by (by apply ASSERT_run, bool_decide_eq_true_2).
  rewrite (bind_run _ _ _ v s1).
  2:{ apply deref_done. simpl. by rewrite He1. }
  rewrite (bind_run _ _ _ tt s1) by (by apply ASSERT_run, bool_decide_eq_true_2).
  rewrite (bind_run _ _ _ tt s1) by (by apply ASSERT_run, bool_decide_eq_true_2).
  erewrite bind_run by (unfold pagedir_clear_page, emit, modify; reflexivity).
  erewrite bind_run by (unfold vm_swap_out; prim; reflexivity).
  erewrite bind_run by (unfold vm_supt_set_swap, emit, modify; reflexivity).
  erewrite bind_run.
  2:{ rewrite vm_frame_do_free_run. setters. rewrite Hl1, Hl, Hk. simpl.
      rewrite bool_decide_eq_true_2 by done. simpl. rewrite Hm1, Hreg.
      reflexivity. }
  unfold reclaimed. setters.
  by rewrite Hl1, Hl, Hm1, <- !(assoc_L (++)).
Qed.

(** The eviction sequence on an entry of the table.  When the first
    [palloc_get_page] of [vm_frame_allocate] returns null and the scanner
    picks the entry [v] at address [a], the calls made next are, in this
    order: [pagedir_clear_page] on the page directory of the owner of [v]
    for its user page, [vm_swap_out] of its frame, [vm_supt_set_swap] on
    the supplemental table of the owner with the slot returned,
    [palloc_free_page] of its frame and [free] of its record, and only
    then the second [palloc_get_page].  That second call is made in the
    state [reclaimed K a v s1]: after it the hash is the hash of [s0]
    without the frame of [v], the list the list of [s0] without [a], and
    the record at [a] is gone. *)
Theorem eviction_sequence K cur upage0 s0 a v s1 :
  table_ok s0 → frame_lock s0 = false →
  palloc_pick K (user_pool s0) = None →
  clock_pick_evict_frame K (thread_pagedir K cur) (scan_start s0)
  = Done (Lelem a) s1 →
  entries s0 !! a = Some v →
  t v ≠ 0 → thread_pagedir K (t v) ≠ 3435973836 →
  is_kernel_vaddr K (kpage v) = true → pg_ofs K (kpage v) = 0 →
  let s2 := reclaimed K a v s1 in
  let se := final (vm_frame_evict K cur (scan_start s0)) in
  ((∃ rest,
      trace (final (vm_frame_allocate K cur upage0 s0))
      = trace s1 ++ reclaim_calls K a v
        ++ EvPallocGet (palloc_pick K (user_pool s2)) :: rest) ∧
   trace s2 = trace s1 ++ reclaim_calls K a v ∧
   frame_map s1 !! kpage v = Some a ∧
   frame_map s2 !! kpage v = None ∧
   (a ∉ frame_list s2) ∧
   entries s2 !! a = None ∧
   kpage v ∈ user_pool s2 ∧
   vm_frame_evict K cur (scan_start s0)
   = (frame_page ← palloc_get_page K;
      match frame_page with
      | Some p => mret p
      | None => halt (AssertFailed 94)
      end) s2 ∧
   frame_map se = delete (kpage v) (frame_map s0) ∧
   frame_list se = filter (λ x, x ≠ a) (frame_list s0) ∧
   entries se = delete a (entries s0) ∧
   trace se = trace s1 ++ reclaim_calls K a v
              ++ [EvPallocGet (palloc_pick K ({[kpage v]} ∪ user_pool s0))]).
Proof.
  intros Hok Hl Hnone Hpick Ha Ht Hpd Hk Hofs s2 se.
  assert (table_ok (scan_start s0)) as Hok'.
  { by eapply table_ok_ext; [..|exact Hok]. }
  destruct (vm_frame_evict_run K cur (scan_start s0) a v s1)
    as [Hreg Hrun]; try done.
  pose proof (clock_pick_same K (thread_pagedir K cur) (scan_start s0)) as Hs.
  rewrite Hpick in Hs. destruct Hs as (_ & Hm1 & Hli1 & He1 & Hp1).
  simpl in Hm1, Hli1, He1, Hp1.
  assert (trace s2 = trace s1 ++ reclaim_calls K a v) as Htr.
  { unfold s2, reclaimed, reclaim_calls. setters.
    by rewrite <- !(assoc_L (++)). }
  assert (frame_map se = delete (kpage v) (frame_map s0) ∧
          frame_list se = filter (λ x, x ≠ a) (frame_list s0) ∧
          entries se = delete a (entries s0) ∧
          trace se = trace s1 ++ reclaim_calls K a v
                     ++ [EvPallocGet
                           (palloc_pick K ({[kpage v]} ∪ user_pool s0))])
    as Hse.
  { unfold se. rewrite Hrun, <- Hm1, <- Hli1, <- He1, <- Hp1.
    unfold palloc_get_page, s2, reclaimed, reclaim_calls. prim. setters.
    destruct (palloc_pick K ({[kpage v]} ∪ user_pool s1)) as [p|];
      setters; by rewrite <- !(assoc_L (++)). }
  split; [|split; [|split; [|split; [|split; [|split; [|split; [|split]]]]]]].
  - unfold vm_frame_allocate.
    rewrite (bind_run _ _ _ _ _ (lock_acquire_run s0 Hl)). cbn beta.
    rewrite final_bind.
    assert (vm_frame_acquire K cur
              (traced [EvLockAcquire] (set_frame_lock true s0))
            = vm_frame_evict K cur (scan_start s0)) as ->.
    { unfold vm_frame_acquire, palloc_get_page. prim. setters. rewrite Hnone.
      unfold scan_start. setters. by rewrite <- (assoc_L (++)). }
    rewrite Hrun. fold s2.
    unfold palloc_get_page, malloc, hash_insert, lock_release. prim.
    destruct (palloc_pick K (user_pool s2)) as [p|]; setters.
    + destruct (malloc_pick K _) as [b|]; setters.
      * rewrite lookup_insert_eq. setters.
        destruct (delete (kpage v) (frame_map s1) !! p); setters.
        -- eexists. rewrite Htr, <- !(assoc_L (++)). simpl. reflexivity.
        -- destruct (frame_lock s1); setters; eexists;
             rewrite Htr, <- !(assoc_L (++)); simpl; reflexivity.
      * destruct (frame_lock s1); setters; eexists;
          rewrite Htr, <- !(assoc_L (++)); simpl; reflexivity.
    + eexists. rewrite Htr, <- !(assoc_L (++)). simpl. reflexivity.
  - exact Htr.
  - by rewrite Hm1.
  - unfold s2, reclaimed. setters. apply lookup_delete_eq.
  - unfold s2, reclaimed. setters. rewrite list_elem_of_filter. naive_solver.
  - unfold s2, reclaimed. setters. apply lookup_delete_eq.
  - unfold s2, reclaimed. setters. set_solver.
  - exact Hrun.
  - exact Hse.
Qed.

Lemma eviction_sequence_witness :
  (∃ rest,
     trace (final (vm_frame_allocate (Pintos.kern Pintos.tail_pinned) Pintos.T2
                     Pintos.pageC (Pintos.first_pinned Pintos.tail_pinned)))
     = trace Pintos.picked_B
       ++ reclaim_calls (Pintos.kern Pintos.tail_pinned) Pintos.block2 Pintos.entryB
       ++ EvPallocGet (Some Pintos.F2) :: rest) ∧
  frame_map Pintos.picked_B !! Pintos.F2 = Some Pintos.block2 ∧
  frame_list (final (vm_frame_evict (Pintos.kern Pintos.tail_pinned) Pintos.T2
                       (scan_start (Pintos.first_pinned Pintos.tail_pinned))))
  = filter (λ x, x ≠ Pintos.block2)
      (frame_list (Pintos.first_pinned Pintos.tail_pinned)).
Proof.
  pose proof (eviction_sequence (Pintos.kern Pintos.tail_pinned) Pintos.T2
                Pintos.pageC (Pintos.first_pinned Pintos.tail_pinned)
                Pintos.block2 Pintos.entryB Pintos.picked_B) as H.
  destruct H as (H1 & _ & H3 & _ & _ & _ & _ & _ & _ & H10 & _).
  - apply (bool_decide_unpack _). vm_compute. exact I.
  - vm_compute. reflexivity.
  - vm_compute. reflexivity.
  - vm_compute. reflexivity.
  - vm_compute. reflexivity.
  - vm_compute. discriminate.
  - vm_compute. discriminate.
  - vm_compute. reflexivity.
  - vm_compute. reflexivity.
  - split; [exact H1 | split; [exact H3 | exact H10]].
Defined.

(** The run of the witness, call by call. *)
Example eviction_trace :
  trace (final (vm_frame_allocate (Pintos.kern Pintos.tail_pinned) Pintos.T2
                  Pintos.pageC (Pintos.first_pinned Pintos.tail_pinned)))
  = trace (Pintos.first_pinned Pintos.tail_pinned) ++
    [EvLockAcquire; EvPallocGet None;
     EvIsAccessed (Pintos.T2 + 1048576) Pintos.pageB false;
     EvClearPage (Pintos.T1 + 1048576) Pintos.pageB;
     EvSwapOut Pintos.F2 7;
     EvSuptSetSwap (Pintos.T1 + 2097152) Pintos.pageB 7;
     EvPallocFree Pintos.F2;
     EvFree Pintos.block2;
     EvPallocGet (Some Pintos.F2);
     EvMalloc (Some Pintos.block2);
     EvLockRelease].
Proof. vm_compute. reflexivity. Qed.

(** ** One step of the clock, in general *)

(** In a list without duplicates, the step from the element at index [i]
    leads to the element at index [i + 1], and to the end of the list
    when there is none. *)
Lemma list_next_lookup l i a :
  NoDup l → l !! i = Some a →
  list_next l a = Some (from_option Lelem ListEnd (l !! S i)).
Proof.
  revert i. induction l as [|x l IH]; intros i Hnd Hi; [done|].
  apply NoDup_cons in Hnd as [Hx Hnd]. simpl.
  destruct i as [|i]; simpl in Hi.
  - injection Hi as ->. rewrite decide_True by done. by destruct l.
  - rewrite decide_False.
    + by apply IH.
    + intros ->. apply Hx. by eapply list_elem_of_lookup_2.
Qed.

(** [clock_next_frame] on a non-empty list: from the null pointer and
    from the end of the list it goes to the first element; from the
    element at index [i] to the element at index [i + 1] when there is
    one, and otherwise to the tail sentinel, which it returns. *)
Lemma clock_next_frame_step s :
  frame_list s ≠ [] → NoDup (frame_list s) →
  (clock_ptr s = Null ∨ clock_ptr s = ListEnd →
     verdict (clock_next_frame s) = inl (list_begin (frame_list s))) ∧
  (∀ i a, clock_ptr s = Lelem a → frame_list s !! i = Some a →
     verdict (clock_next_frame s)
     = inl (from_option Lelem ListEnd (frame_list s !! S i))).
Proof.
  intros Hne Hnd. unfold clock_next_frame. prim.
  destruct (frame_list s) as [|x l] eqn:El; [done|].
  change (list_empty (x :: l)) with false. cbv beta iota.
  split.
  - intros [Hc|Hc]; by rewrite Hc.
  - intros i a Hc Hi. by rewrite Hc, (list_next_lookup _ _ _ Hnd Hi).
Qed.

Lemma clock_next_frame_at s l1 a l2 :
  frame_list s = l1 ++ a :: l2 → NoDup (frame_list s) →
  cursor_after l1 (clock_ptr s) →
  clock_next_frame s
  = Done (Lelem a)
      (set_scan_log (scan_log s ++ [Lelem a]) (set_clock_ptr (Lelem a) s)).
Proof.
  intros Hl Hnd Hc.
  assert (verdict (clock_next_frame s) = inl (Lelem a)) as Hv.
  { destruct (clock_next_frame_step s) as [H0 H1]; [by rewrite Hl; destruct l1|done|].
    unfold cursor_after in Hc. destruct (last l1) as [b|] eqn:Hlast.
    - apply last_Some in Hlast as [l1' ->].
      rewrite (H1 (length l1') b Hc).
      + rewrite Hl, <- (assoc_L (++)). simpl.
        by rewrite (lookup_app_r _ _ (S (length l1'))), Nat.sub_succ_l,
          Nat.sub_diag by lia.
      + rewrite Hl, <- (assoc_L (++)). simpl.
        by rewrite lookup_app_r, Nat.sub_diag by lia.
    - apply last_None in Hlast as ->. rewrite (H0 Hc), Hl. done. }
  destruct (clock_next_frame s) as [p s1|e s1] eqn:Hn; [|discriminate].
  injection Hv as ->. by apply clock_next_frame_done in Hn as [-> _].
Qed.

Lemma clock_next_frame_at_end s l1 b :
  frame_list s = l1 ++ [b] → NoDup (frame_list s) →
  clock_ptr s = Lelem b →
  clock_next_frame s
  = Done ListEnd (set_scan_log (scan_log s ++ [ListEnd]) (set_clock_ptr ListEnd s)).
Proof.
  intros Hl Hnd Hc.
  assert (verdict (clock_next_frame s) = inl ListEnd) as Hv.
  { destruct (clock_next_frame_step s) as [_ H1]; [by rewrite Hl; destruct l1|done|].
    rewrite (H1 (length l1) b Hc).
    - rewrite Hl. by rewrite lookup_ge_None_2 by (rewrite length_app; simpl; lia).
    - rewrite Hl. by rewrite lookup_app_r, Nat.sub_diag by lia. }
  destruct (clock_next_frame s) as [p s1|e s1] eqn:Hn; [|discriminate].
  injection Hv as ->. by apply clock_next_frame_done in Hn as [-> _].
Qed.

(** One lap of the scanner over the part [l2] of the list that lies after
    [clock_ptr]: either an unpinned entry of [l2] is returned, or the scan
    goes on from the last element of [l2] with [length l2] iterations
    less, and then every entry of [l2] was pinned or had its accessed bit
    set, and the bit of every unpinned one is now clear. *)
Lemma clock_scan_lap K pagedir l2 : ∀ l1 s fuel,
  frame_list s = l1 ++ l2 → NoDup (frame_list s) →
  cursor_after l1 (clock_ptr s) →
  (∀ a, a ∈ l2 → is_Some (entries s !! a)) →
  (length l2 ≤ fuel)%nat →
  (∃ a s', clock_scan K fuel pagedir s = Done (Lelem a) s' ∧
           a ∈ l2 ∧ unpinned s a) ∨
  (∃ s', clock_scan K fuel pagedir s
         = clock_scan K (fuel - length l2) pagedir s' ∧
         same_table s s' ∧
         cursor_after (l1 ++ l2) (clock_ptr s') ∧
         accessed s' ⊆ accessed s ∧
         ∀ a e, a ∈ l2 → entries s !! a = Some e →
           (pinned e = true ∨ (pagedir, upage e) ∈ accessed s) ∧
           (pinned e = false → (pagedir, upage e) ∉ accessed s')).
Proof.
  induction l2 as [|a l2 IH]; intros l1 s fuel Hl Hnd Hc Hlive Hfuel.
  { right. exists s. rewrite Nat.sub_0_r, app_nil_r.
    split; [done|]. split; [apply same_table_refl|]. split; [done|].
    split; [done|]. intros a e Ha. by apply elem_of_nil in Ha. }
  destruct fuel as [|fuel]; [simpl in Hfuel; lia|]. simpl in Hfuel.
  cbn [clock_scan].
  rewrite (bind_run _ _ _ _ _ (clock_next_frame_at s l1 a l2 Hl Hnd Hc)).
  set (s1 := set_scan_log _ _).
  destruct (Hlive a) as [e He]; [by left|].
  rewrite (bind_run _ _ _ e s1) by (by apply deref_done).
  assert (∀ s2, same_table s1 s2 → clock_ptr s2 = Lelem a →
            accessed s2 ⊆ accessed s →
            (pinned e = true ∨ (pagedir, upage e) ∈ accessed s) →
            (pinned e = false → (pagedir, upage e) ∉ accessed s2) →
            (∃ a0 s', clock_scan K fuel pagedir s2 = Done (Lelem a0) s' ∧
                      a0 ∈ a :: l2 ∧ unpinned s a0) ∨
            (∃ s', clock_scan K fuel pagedir s2
                   = clock_scan K (S fuel - length (a :: l2)) pagedir s' ∧
                   same_table s s' ∧
                   cursor_after (l1 ++ a :: l2) (clock_ptr s') ∧
                   accessed s' ⊆ accessed s ∧
                   ∀ a0 e0, a0 ∈ a :: l2 → entries s !! a0 = Some e0 →
                     (pinned e0 = true ∨ (pagedir, upage e0) ∈ accessed s) ∧
                     (pinned e0 = false → (pagedir, upage e0) ∉ accessed s')))
    as Hrest.
  { intros s2 (Hl2 & Hm2 & Hli2 & He2 & Hp2) Hc2 Hacc Hwas Hnow.
    simpl in Hli2, He2.
    destruct (IH (l1 ++ [a]) s2 fuel) as [(a0 & s' & Hrun & Ha0 & Hun)|
                                         (s' & Hrun & Hs & Hc' & Hacc' & Hall)].
    - by rewrite Hli2, Hl, <- (assoc_L (++)).
    - by rewrite Hli2.
    - unfold cursor_after. by rewrite last_snoc.
    - intros a0 Ha0. rewrite He2. apply Hlive. by right.
    - lia.
    - left. exists a0, s'. split; [done|]. split; [by right|].
      unfold unpinned in *. by rewrite <- He2.
    - right. exists s'. split; [done|].
      split.
      { eapply same_table_trans; [|exact Hs]. by unfold same_table. }
      split; [by rewrite <- (assoc_L (++)) in Hc'|].
      split; [set_solver|].
      intros a0 e0 [->|Ha0]%elem_of_cons He0.
      + assert (e0 = e) as -> by congruence. split; [done|].
        intros Hp. specialize (Hnow Hp). set_solver.
      + rewrite <- He2 in He0. destruct (Hall a0 e0 Ha0 He0) as [H1 H2].
        split; [|done]. destruct H1 as [H1|H1]; [by left|]. right. set_solver. }
  destruct (pinned e) eqn:Hp.
  - apply Hrest; first [done | apply same_table_refl | by left].
  - unfold pagedir_is_accessed, pagedir_set_accessed. prim.
    destruct (bool_decide ((pagedir, upage e) ∈ accessed s1)) eqn:Hb.
    + apply bool_decide_eq_true in Hb.
      apply Hrest; [by unfold same_table|done|set_solver|by right|].
      intros _. set_solver.
    + left. exists a, (traced [EvIsAccessed pagedir (upage e) false] s1).
      split; [done|]. split; [by left|]. by exists e.
Qed.

Lemma map_img_size_le (m : gmap Z Z) :
  (size (map_img m : gset Z) ≤ size m)%nat.
Proof.
  induction m as [|i x m Hi _ IH] using map_first_key_ind.
  - by rewrite map_img_empty_L, size_empty.
  - rewrite map_img_insert_notin_L, map_size_insert_None by done.
    rewrite size_union_alt, size_singleton.
    pose proof (subseteq_size (map_img m ∖ {[x]}) (map_img m : gset Z)) as Hle.
    specialize (Hle ltac:(set_solver)). lia.
Qed.

Lemma table_ok_size s :
  table_ok s → (length (frame_list s) ≤ size (frame_map s))%nat.
Proof.
  intros (Hnd & Hs & _).
  rewrite <- (size_list_to_set (C := gset Z)) by done.
  unfold order_entries, registry_entries in Hs. rewrite Hs.
  apply map_img_size_le.
Qed.

(** Where the description of the scanner does hold: [clock_ptr] is null
    or at the end of the list and the bytes at the tail sentinel read as
    pinned.  Then the [2n + 1] iterations are a lap over the [n] entries,
    the step on the sentinel and a second lap, and an unpinned entry is
    returned if there is one. *)
Lemma scan_from_reset_finds_victim K pagedir s :
  table_ok s →
  clock_ptr s = Null ∨ clock_ptr s = ListEnd →
  pinned (list_end_entry K) = true →
  (∃ a, a ∈ frame_list s ∧ unpinned s a) →
  ∃ a s', clock_pick_evict_frame K pagedir s = Done (Lelem a) s' ∧
          a ∈ frame_list s ∧ unpinned s a.
Proof.
  intros Hok Hc Hg (a & Ha & e & He & Hp).
  pose proof (table_ok_size s Hok) as Hsize.
  pose proof Hok as (Hnd & _).
  assert (∀ x, x ∈ frame_list s → is_Some (entries s !! x)) as Hlive.
  { intros x Hx. destruct (table_ok_elem _ _ Hok Hx) as (ex & Hex & _). eauto. }
  assert (length (frame_list s) ≠ 0%nat) as Hlen.
  { destruct (frame_list s); [by apply elem_of_nil in Ha | done]. }
  unfold clock_pick_evict_frame. unfold hash_size, gets, mbind, M_bind.
  rewrite decide_False by lia.
  set (n := size (frame_map s)) in *.
  destruct (clock_scan_lap K pagedir (frame_list s) [] s (S (n + n))
              eq_refl Hnd Hc Hlive ltac:(lia))
    as [(a0 & s' & Hrun & Ha0 & Hun)|(s1 & Hrun & Hs1 & Hc1 & Hacc1 & Hall1)];
    [by eauto|].
  rewrite Hrun. clear Hrun.
  destruct Hs1 as (_ & _ & Hl1 & He1 & _). simpl in Hc1.
  unfold cursor_after in Hc1.
  destruct (last (frame_list s)) as [b|] eqn:Hlast.
  2:{ apply last_None in Hlast. by rewrite Hlast in Hlen. }
  apply last_Some in Hlast as [l' Hl'].
  replace (S (n + n) - length (frame_list s))%nat
    with (S (n + n - length (frame_list s))) by lia.
  cbn [clock_scan].
  rewrite (bind_run _ _ _ _ _
             (clock_next_frame_at_end s1 l' b ltac:(congruence)
                ltac:(by rewrite Hl1) Hc1)).
  set (s2 := set_scan_log _ _).
  rewrite (bind_run _ _ _ (list_end_entry K) s2) by (by apply deref_done).
  rewrite Hg.
  assert (frame_list s2 = [] ++ frame_list s) as Hl2 by done.
  assert (NoDup (frame_list s2)) as Hnd2 by (by rewrite Hl2).
  assert (cursor_after [] (clock_ptr s2)) as Hc2 by (by right).
  assert (∀ x, x ∈ frame_list s → is_Some (entries s2 !! x)) as Hlive2.
  { intros x Hx. simpl. rewrite He1. by apply Hlive. }
  destruct (clock_scan_lap K pagedir (frame_list s) [] s2
              (n + n - length (frame_list s)) Hl2 Hnd2 Hc2 Hlive2 ltac:(lia))
    as [(a0 & s' & Hrun & Ha0 & Hun)|(s3 & _ & _ & _ & _ & Hall2)].
  - exists a0, s'. split; [done|]. split; [done|].
    unfold unpinned in *. simpl in Hun. by rewrite He1 in Hun.
  - exfalso. destruct (Hall1 a e Ha He) as [_ Hclear].
    destruct (Hall2 a e Ha) as [[Hpin|Hset] _]; [by simpl; rewrite He1|congruence|].
    by apply Hclear.
Qed.

(** [vm_frame_do_free] never writes [clock_ptr]. *)
Lemma vm_frame_do_free_clock_ptr K k b s :
  clock_ptr (final (vm_frame_do_free K k b s)) = clock_ptr s.
Proof. rewrite vm_frame_do_free_run. by repeat case_match. Qed.

(** Removing an entry other than the one [clock_ptr] is on leaves
    [clock_ptr] on an element of the list. *)
Lemma removed_keeps_other_cursor s k f b :
  cursor_ok s → clock_ptr s ≠ Lelem f → cursor_ok (removed k f b s).
Proof.
  unfold cursor_ok. simpl. destruct (clock_ptr s) as [|a|]; try done.
  intros Ha Hne. apply list_elem_of_filter. split; [congruence|done].
Qed.

(** [vm_frame_allocate] when the pool has a page and the heap has no
    block: null is returned, the page has left the pool and no call gives
    it back. *)
Lemma vm_frame_allocate_no_block K cur upage0 s p :
  frame_lock s = false →
  palloc_pick K (user_pool s) = Some p →
  malloc_pick K (dom (entries s)) = None →
  vm_frame_allocate K cur upage0 s
  = Done None
      (traced [EvLockAcquire; EvPallocGet (Some p); EvMalloc None; EvLockRelease]
         (set_user_pool (user_pool s ∖ {[p]}) s)).
Proof.
  intros Hl Hp Hm.
  unfold vm_frame_allocate, vm_frame_acquire, palloc_get_page, malloc,
    lock_acquire, lock_release.
  prim. rewrite Hl. setters. rewrite Hp. setters. rewrite Hm. setters.
  destruct s; simpl in *. subst. by rewrite <- !(assoc_L (++)).
Qed.

(** ** Where the code departs from its description *)

(** Discharges a closed decidable proposition, or an equation between
    closed terms, by evaluation. *)
Ltac evaluate :=
  first [ vm_compute; reflexivity
        | apply (bool_decide_unpack _); vm_compute; exact I ].

(** C8: the step at the last element of the list.  In [one_frame] the
    list has one element and [clock_ptr] is on it.  [clock_next_frame]
    moves [clock_ptr] to the tail sentinel and returns the pointer
    computed from it, which is the address of no entry; the first entry
    comes with the call after. *)
Theorem clock_next_frame_returns_sentinel :
  let s := Pintos.one_frame Pintos.tail_pinned in
  frame_list s = [Pintos.block1] ∧
  clock_ptr s = Lelem Pintos.block1 ∧
  verdict (clock_next_frame s) = inl ListEnd ∧
  clock_ptr (final (clock_next_frame s)) = ListEnd ∧
  verdict ((clock_next_frame ;; clock_next_frame) s) = inl (Lelem Pintos.block1).
Proof. intros. repeat apply conj; evaluate. Qed.

(** C2: a scan that finds no victim although an entry is unpinned.  In
    [one_frame] the table has one entry, unpinned, whose page the running
    thread has touched, and [clock_ptr] is on it.  The three iterations
    inspect the tail sentinel, the entry, whose accessed bit they clear,
    and the tail sentinel again.  When the bytes at the sentinel read as
    pinned the scan ends in the PANIC of line 197, and so does
    [vm_frame_allocate]; when they read as unpinned and not accessed the
    scanner returns the sentinel. *)
Theorem scan_misses_unpinned_entry :
  let K := Pintos.kern Pintos.tail_pinned in
  let s := Pintos.one_frame Pintos.tail_pinned in
  let K' := Pintos.kern Pintos.tail_clear in
  let s' := Pintos.one_frame Pintos.tail_clear in
  table_ok s ∧
  frame_list s = [Pintos.block1] ∧
  size (frame_map s) = 1%nat ∧
  clock_ptr s = Lelem Pintos.block1 ∧
  entries s !! Pintos.block1 = Some (FTE Pintos.F1 Pintos.pageB Pintos.T1 false) ∧
  accessed s = {[(thread_pagedir K Pintos.T1, Pintos.pageB)]} ∧
  verdict (clock_pick_evict_frame K (thread_pagedir K Pintos.T1) s)
  = inr PanicNoVictim ∧
  scan_log (final (clock_pick_evict_frame K (thread_pagedir K Pintos.T1) s))
  = scan_log s ++ [ListEnd; Lelem Pintos.block1; ListEnd] ∧
  verdict (vm_frame_allocate K Pintos.T1 Pintos.pageC s) = inr PanicNoVictim ∧
  entries s' !! Pintos.block1 = Some (FTE Pintos.F1 Pintos.pageB Pintos.T1 false) ∧
  verdict (clock_pick_evict_frame K' (thread_pagedir K' Pintos.T1) s')
  = inl ListEnd.
Proof. intros. repeat apply conj; evaluate. Qed.

(** C4: the eviction sequence when the scanner returns the tail sentinel.
    In [one_frame] the table has one entry, for frame [F1], unpinned, the
    pool is empty and [clock_ptr] is on the entry; thread [T1] asks for a
    frame for page C.  The first [palloc_get_page] returns null and the
    scanner returns the pointer computed from the tail sentinel, whose
    bytes read as unpinned.  [pagedir_clear_page], [vm_swap_out] and
    [vm_supt_set_swap] are then called with what the memory around the
    sentinel holds, for no frame of the table.  When the bytes read as
    [kpage] are no kernel address the run stops at the assertion of line
    148; when they are the address of a page that the hash does not hold,
    [vm_frame_do_free] returns at line 157, the second [palloc_get_page]
    returns null and the run stops at the assertion of line 94.  Either
    way there is no [palloc_free_page] and no [free]: the entry of [F1] is
    still in the hash and in the list, its record is live and the pool is
    as empty as before. *)
Theorem eviction_of_sentinel_removes_nothing :
  let K := Pintos.kern Pintos.tail_clear in
  let s := Pintos.one_frame Pintos.tail_clear in
  let r := vm_frame_allocate K Pintos.T1 Pintos.pageC s in
  let K' := Pintos.kern Pintos.tail_stray in
  let s' := Pintos.one_frame Pintos.tail_stray in
  let r' := vm_frame_allocate K' Pintos.T1 Pintos.pageC s' in
  (table_ok s ∧ frame_lock s = false ∧ user_pool s = ∅ ∧
   frame_list s = [Pintos.block1] ∧
   frame_map s !! Pintos.F1 = Some Pintos.block1 ∧
   size (frame_map s) = 1%nat ∧
   entries s !! Pintos.block1
   = Some (FTE Pintos.F1 Pintos.pageB Pintos.T1 false) ∧
   verdict (clock_pick_evict_frame K (thread_pagedir K Pintos.T1) (scan_start s))
   = inl ListEnd ∧
   verdict r = inr (AssertFailed 148) ∧
   trace (final r)
   = trace s ++
     [EvLockAcquire; EvPallocGet None;
      EvIsAccessed (Pintos.T1 + 1048576) 0 false;
      EvClearPage (3221229568 + 1048576) 0;
      EvSwapOut 0 7;
      EvSuptSetSwap (3221229568 + 2097152) 0 7] ∧
   frame_list (final r) = [Pintos.block1] ∧
   frame_map (final r) !! Pintos.F1 = Some Pintos.block1 ∧
   size (frame_map (final r)) = 1%nat ∧
   entries (final r) !! Pintos.block1
   = Some (FTE Pintos.F1 Pintos.pageB Pintos.T1 false) ∧
   user_pool (final r) = ∅) ∧
  (table_ok s' ∧ frame_lock s' = false ∧ user_pool s' = ∅ ∧
   frame_list s' = [Pintos.block1] ∧
   frame_map s' !! Pintos.F1 = Some Pintos.block1 ∧
   frame_map s' !! Pintos.F2 = None ∧
   entries s' !! Pintos.block1
   = Some (FTE Pintos.F1 Pintos.pageB Pintos.T1 false) ∧
   verdict (clock_pick_evict_frame K' (thread_pagedir K' Pintos.T1)
              (scan_start s'))
   = inl ListEnd ∧
   verdict r' = inr (AssertFailed 94) ∧
   trace (final r')
   = trace s' ++
     [EvLockAcquire; EvPallocGet None;
      EvIsAccessed (Pintos.T1 + 1048576) 0 false;
      EvClearPage (3221229568 + 1048576) 0;
      EvSwapOut Pintos.F2 7;
      EvSuptSetSwap (3221229568 + 2097152) 0 7;
      EvPallocGet None] ∧
   frame_list (final r') = [Pintos.block1] ∧
   frame_map (final r') !! Pintos.F1 = Some Pintos.block1 ∧
   size (frame_map (final r')) = 1%nat ∧
   entries (final r') !! Pintos.block1
   = Some (FTE Pintos.F1 Pintos.pageB Pintos.T1 false) ∧
   user_pool (final r') = ∅).
Proof. intros. repeat apply conj; evaluate. Qed.

(** The scanner calls [clock_next_frame] at most [2n + 1] times, for [n]
    the size of the hash, however it ends. *)
Lemma clock_scan_inspections K iters pagedir s :
  ∃ lg, scan_log (final (clock_scan K iters pagedir s)) = scan_log s ++ lg ∧
        (length lg ≤ iters)%nat.
Proof.
  revert s. induction iters as [|n IH]; intros s; simpl.
  { exists []. by rewrite app_nil_r. }
  rewrite final_bind.
  destruct (clock_next_frame s) as [p s1|e s1] eqn:Hn; simpl.
  2:{ exists []. rewrite app_nil_r. split; [|simpl; lia].
      revert Hn. unfold clock_next_frame. prim.
      destruct (list_empty (frame_list s)); [by intros [= _ <-]|].
      destruct (clock_ptr s) as [|a|]; simpl; try discriminate.
      destruct (list_next (frame_list s) a); simpl; [discriminate|].
      by intros [= _ <-]. }
  apply clock_next_frame_done in Hn as [-> _].
  rewrite final_bind, deref_fields.
  destruct (fields K _ p) as [f|].
  2:{ exists [p]. split; [done | simpl; lia]. }
  destruct (pinned f).
  { destruct (IH (set_scan_log (scan_log s ++ [p]) (set_clock_ptr p s)))
      as (lg & Hlg & Hlen).
    exists (p :: lg). rewrite Hlg. setters.
    split; [by rewrite <- (assoc_L (++)) | lia]. }
  prim. destruct (bool_decide _).
  - match goal with |- context [clock_scan K n pagedir ?s2] =>
      destruct (IH s2) as (lg & Hlg & Hlen) end.
    exists (p :: lg). rewrite Hlg. setters.
    split; [by rewrite <- (assoc_L (++)) | lia].
  - exists [p]. split; [done | simpl; lia].
Qed.

Lemma clock_pick_inspections K pagedir s :
  ∃ lg,
    scan_log (final (clock_pick_evict_frame K pagedir s)) = scan_log s ++ lg ∧
    (length lg ≤ 2 * size (frame_map s) + 1)%nat.
Proof.
  unfold clock_pick_evict_frame. prim. destruct (decide _).
  - exists []. simpl. split; [by rewrite app_nil_r | lia].
  - destruct (clock_scan_inspections K (S (size (frame_map s) + size (frame_map s)))
                pagedir s) as (lg & Hlg & Hlen).
    exists lg. split; [done | lia].
Qed.

(** The accessed-bit calls of the scanner all go to the page directory it
    was given. *)
Lemma clock_scan_queries K iters pagedir s :
  ∃ tr, trace (final (clock_scan K iters pagedir s)) = trace s ++ tr ∧
        queries_only pagedir tr.
Proof.
  revert s. induction iters as [|n IH]; intros s; simpl.
  { exists []. split; [by rewrite app_nil_r | constructor]. }
  rewrite final_bind.
  destruct (clock_next_frame s) as [p s1|e s1] eqn:Hn; simpl.
  2:{ exists []. rewrite app_nil_r. split; [|constructor].
      revert Hn. unfold clock_next_frame. prim.
      destruct (list_empty (frame_list s)); [by intros [= _ <-]|].
      destruct (clock_ptr s) as [|a|]; simpl; try discriminate.
      destruct (list_next (frame_list s) a); simpl; [discriminate|].
      by intros [= _ <-]. }
  apply clock_next_frame_done in Hn as [-> _].
  rewrite final_bind, deref_fields.
  destruct (fields K _ p) as [f|]; [|exists []; split; [by rewrite app_nil_r | constructor]].
  destruct (pinned f).
  { destruct (IH (set_scan_log (scan_log s ++ [p]) (set_clock_ptr p s)))
      as (tr & Htr & Hq). by exists tr. }
  prim. destruct (bool_decide _) eqn:Hb.
  - match goal with |- context [clock_scan K n pagedir ?s2] =>
      destruct (IH s2) as (tr & Htr & Hq) end.
    exists (EvIsAccessed pagedir (upage f) true :: EvSetAccessed pagedir (upage f) false :: tr).
    split.
    + rewrite Htr. setters. by rewrite <- !(assoc_L (++)).
    + by repeat constructor.
  - exists [EvIsAccessed pagedir (upage f) false]. split; [done|].
    by repeat constructor.
Qed.

(** C3: whose accessed bit the scanner reads.  In [owned_by_T1] the
    one entry of the table belongs to thread [T1], which has touched its
    page.  Thread [T2] allocates: the scanner is handed the page directory
    of [T2], asks it about the page of [T1], gets false and returns the
    entry at once; the bit in the page directory of [T1] is neither read
    nor cleared, whereas the next call, [pagedir_clear_page], does go to
    the page directory of [T1]. *)
Theorem scanner_reads_callers_pagedir :
  let K := Pintos.kern Pintos.tail_pinned in
  let s := scan_start (Pintos.owned_by_T1 Pintos.tail_pinned) in
  let pd1 := thread_pagedir K Pintos.T1 in
  let pd2 := thread_pagedir K Pintos.T2 in
  entries s !! Pintos.block1 = Some (FTE Pintos.F1 Pintos.pageA Pintos.T1 false) ∧
  (pd1, Pintos.pageA) ∈ accessed s ∧
  verdict (vm_frame_evict K Pintos.T2 s) = inl Pintos.F1 ∧
  trace (final (vm_frame_evict K Pintos.T2 s))
  = trace s ++ [EvIsAccessed pd2 Pintos.pageA false;
                EvClearPage pd1 Pintos.pageA;
                EvSwapOut Pintos.F1 7;
                EvSuptSetSwap (thread_supt K Pintos.T1) Pintos.pageA 7;
                EvPallocFree Pintos.F1;
                EvFree Pintos.block1;
                EvPallocGet (Some Pintos.F1)] ∧
  (pd1, Pintos.pageA) ∈ accessed (final (vm_frame_evict K Pintos.T2 s)).
Proof. intros. repeat apply conj; evaluate. Qed.

(** C5: the frame of a failed allocation.  The pool holds one frame
    and the heap is exhausted.  [vm_frame_allocate] takes the frame from
    the pool, gets null from [malloc], releases the lock and returns null:
    the table is as before, and the frame is neither in the table nor back
    in the pool, no [palloc_free_page] having been called. *)
Theorem failed_allocation_keeps_frame :
  let K := Pintos.kern_no_heap Pintos.tail_pinned in
  let s := Pintos.fresh {[Pintos.F1]} in
  let o := vm_frame_allocate K Pintos.T1 Pintos.pageA s in
  user_pool s = {[Pintos.F1]} ∧
  trace s = [] ∧
  verdict o = inl None ∧
  trace (final o)
  = [EvLockAcquire; EvPallocGet (Some Pintos.F1); EvMalloc None; EvLockRelease] ∧
  frame_map (final o) = frame_map s ∧
  frame_list (final o) = frame_list s ∧
  user_pool (final o) = ∅.
Proof. intros. repeat apply conj; evaluate. Qed.

(** C7: the clock pointer after a removal.  In [one_frame],
    [clock_ptr] is on the one entry of the list.  [vm_frame_free] and
    [vm_frame_remove_entry] unlink and free that entry and leave
    [clock_ptr] as it was, the address of a freed record that is no longer
    in the list; the next step of the scanner reads through it.  The same
    holds inside [vm_frame_allocate] once it has reclaimed its victim: the
    scanner left [clock_ptr] on the victim. *)
Theorem clock_ptr_left_dangling :
  let K := Pintos.kern Pintos.tail_pinned in
  let s := Pintos.one_frame Pintos.tail_pinned in
  let s0 := scan_start (final ((vm_frame_init ;;
                                vm_frame_allocate K Pintos.T1 Pintos.pageA)
                                 (Pintos.boot {[Pintos.F1]}))) in
  cursor_ok s ∧
  clock_ptr s = Lelem Pintos.block1 ∧
  verdict (vm_frame_free K Pintos.F1 s) = inl tt ∧
  clock_ptr (final (vm_frame_free K Pintos.F1 s)) = Lelem Pintos.block1 ∧
  frame_list (final (vm_frame_free K Pintos.F1 s)) = [] ∧
  entries (final (vm_frame_free K Pintos.F1 s)) !! Pintos.block1 = None ∧
  ¬ cursor_ok (final (vm_frame_free K Pintos.F1 s)) ∧
  ¬ cursor_ok (final (vm_frame_remove_entry K Pintos.F1 s)) ∧
  verdict ((vm_frame_free K Pintos.F1 ;;
            vm_frame_allocate (Pintos.kern_no_reuse Pintos.tail_pinned)
              Pintos.T1 Pintos.pageC ;;
            clock_next_frame) s)
  = inr StalePointer ∧
  cursor_ok s0 ∧
  verdict (vm_frame_evict K Pintos.T1 s0) = inl Pintos.F1 ∧
  ¬ cursor_ok (final (vm_frame_evict K Pintos.T1 s0)).
Proof. intros. repeat apply conj; evaluate. Qed.

(** ** Pinning *)

(** [vm_frame_set_pinned] on a frame of the table, in closed form. *)
Lemma vm_frame_set_pinned_run k v s a e :
  frame_lock s = false → frame_map s !! k = Some a → entries s !! a = Some e →
  vm_frame_set_pinned k v s
  = Done tt (traced [EvLockAcquire; EvLockRelease]
               (set_entries (<[a := set_pinned v e]> (entries s)) s)).
Proof.
  intros Hl Hk He. unfold vm_frame_set_pinned, lock_acquire, lock_release. prim.
  rewrite Hl. setters. rewrite Hk. setters. rewrite He. setters.
  destruct s; simpl in *. subst. by rewrite <- (assoc_L (++)).
Qed.

(** X1: [vm_frame_pin] and [vm_frame_unpin] on a page that the table does
    not hold stop at the PANIC of line 224, with the lock still held and the
    table as it was. *)
Theorem pin_missing_frame_panics kpage0 s :
  frame_lock s = false → frame_map s !! kpage0 = None →
  vm_frame_pin kpage0 s
  = Halt PanicNoSuchFrame (traced [EvLockAcquire] (set_frame_lock true s)) ∧
  vm_frame_unpin kpage0 s
  = Halt PanicNoSuchFrame (traced [EvLockAcquire] (set_frame_lock true s)).
Proof.
  intros Hl Hk. unfold vm_frame_pin, vm_frame_unpin, vm_frame_set_pinned.
  rewrite !(bind_run _ _ _ _ _ (lock_acquire_run s Hl)).
  unfold hash_find, gets, mbind, M_bind. setters. by rewrite Hk.
Qed.

Lemma pin_missing_frame_panics_witness :
  vm_frame_pin Pintos.F2 (Pintos.one_frame Pintos.tail_pinned)
  = Halt PanicNoSuchFrame
      (traced [EvLockAcquire]
         (set_frame_lock true (Pintos.one_frame Pintos.tail_pinned))) ∧
  vm_frame_unpin Pintos.F2 (Pintos.one_frame Pintos.tail_pinned)
  = Halt PanicNoSuchFrame
      (traced [EvLockAcquire]
         (set_frame_lock true (Pintos.one_frame Pintos.tail_pinned))).
Proof. apply pin_missing_frame_panics; vm_compute; reflexivity. Defined.

(** X2: [vm_frame_set_pinned] on a frame of the table returns, and writes
    the [pinned] field of the entry of that frame and nothing else: the
    other fields of the entry, the other entries, the hash, the list, the
    clock pointer, the pool and the accessed bits are as before, and the
    lock is free again. *)
Theorem set_pinned_writes_one_flag kpage0 v s a e :
  frame_lock s = false → frame_map s !! kpage0 = Some a →
  entries s !! a = Some e →
  ∃ s',
    vm_frame_set_pinned kpage0 v s = Done tt s' ∧
    entries s' !! a = Some (FTE (kpage e) (upage e) (t e) v) ∧
    (∀ b, b ≠ a → entries s' !! b = entries s !! b) ∧
    frame_map s' = frame_map s ∧ frame_list s' = frame_list s ∧
    clock_ptr s' = clock_ptr s ∧ user_pool s' = user_pool s ∧
    accessed s' = accessed s ∧ frame_lock s' = false.
Proof.
  intros Hl Hk He. eexists. split; [by apply vm_frame_set_pinned_run|].
  setters. rewrite lookup_insert_eq. split; [done|].
  split; [|done]. intros b Hb. by rewrite lookup_insert_ne.
Qed.

Lemma set_pinned_writes_one_flag_witness :
  ∃ s',
    vm_frame_set_pinned Pintos.F1 true (Pintos.one_frame Pintos.tail_pinned)
    = Done tt s' ∧
    entries s' !! Pintos.block1
    = Some (FTE Pintos.F1 Pintos.pageB Pintos.T1 true) ∧
    (∀ b, b ≠ Pintos.block1 →
       entries s' !! b = entries (Pintos.one_frame Pintos.tail_pinned) !! b) ∧
    frame_map s' = frame_map (Pintos.one_frame Pintos.tail_pinned) ∧
    frame_list s' = frame_list (Pintos.one_frame Pintos.tail_pinned) ∧
    clock_ptr s' = clock_ptr (Pintos.one_frame Pintos.tail_pinned) ∧
    user_pool s' = user_pool (Pintos.one_frame Pintos.tail_pinned) ∧
    accessed s' = accessed (Pintos.one_frame Pintos.tail_pinned) ∧
    frame_lock s' = false.
Proof.
  apply (set_pinned_writes_one_flag Pintos.F1 true
           (Pintos.one_frame Pintos.tail_pinned) Pintos.block1
           (FTE Pintos.F1 Pintos.pageB Pintos.T1 false));
    vm_compute; reflexivity.
Defined.

(** X3: pinning and then unpinning a frame whose entry was not pinned
    brings every variable of the file back to its value; all that is left
    is the two lock round trips in the trace.  Pinning twice is pinning
    once. *)
Theorem pin_unpin_round_trip kpage0 s a e :
  frame_lock s = false → frame_map s !! kpage0 = Some a →
  entries s !! a = Some e →
  (pinned e = false →
     (vm_frame_pin kpage0 ;; vm_frame_unpin kpage0) s
     = Done tt (traced [EvLockAcquire; EvLockRelease;
                        EvLockAcquire; EvLockRelease] s)) ∧
  (∃ s1, vm_frame_pin kpage0 s = Done tt s1 ∧
         (vm_frame_pin kpage0 ;; vm_frame_pin kpage0) s
         = Done tt (traced [EvLockAcquire; EvLockRelease] s1)).
Proof.
  intros Hl Hk He. unfold vm_frame_pin, vm_frame_unpin.
  pose proof (vm_frame_set_pinned_run kpage0 true s a e Hl Hk He) as H1.
  set (s1 := traced _ _) in H1.
  assert (entries s1 !! a = Some (set_pinned true e)) as He1.
  { unfold s1. setters. apply lookup_insert_eq. }
  assert (frame_lock s1 = false) as Hl1 by done.
  assert (frame_map s1 !! kpage0 = Some a) as Hk1 by done.
  split.
  - intros Hp. rewrite (bind_run _ _ _ _ _ H1).
    rewrite (vm_frame_set_pinned_run kpage0 false s1 a _ Hl1 Hk1 He1).
    f_equal. unfold s1. setters. rewrite insert_insert_eq.
    replace (set_pinned false (set_pinned true e)) with e
      by (destruct e; simpl in *; by subst).
    rewrite insert_id by done.
    destruct s; simpl. by rewrite <- !(assoc_L (++)).
  - exists s1. split; [done|]. rewrite (bind_run _ _ _ _ _ H1).
    rewrite (vm_frame_set_pinned_run kpage0 true s1 a _ Hl1 Hk1 He1).
    f_equal. unfold s1. setters. rewrite insert_insert_eq. done.
Qed.

Lemma pin_unpin_round_trip_witness :
  (pinned (FTE Pintos.F1 Pintos.pageB Pintos.T1 false) = false →
     (vm_frame_pin Pintos.F1 ;; vm_frame_unpin Pintos.F1)
       (Pintos.one_frame Pintos.tail_pinned)
     = Done tt (traced [EvLockAcquire; EvLockRelease;
                        EvLockAcquire; EvLockRelease]
                  (Pintos.one_frame Pintos.tail_pinned))) ∧
  (∃ s1, vm_frame_pin Pintos.F1 (Pintos.one_frame Pintos.tail_pinned)
         = Done tt s1 ∧
         (vm_frame_pin Pintos.F1 ;; vm_frame_pin Pintos.F1)
           (Pintos.one_frame Pintos.tail_pinned)
         = Done tt (traced [EvLockAcquire; EvLockRelease] s1)).
Proof.
  apply (pin_unpin_round_trip Pintos.F1 (Pintos.one_frame Pintos.tail_pinned)
           Pintos.block1);
    vm_compute; reflexivity.
Defined.

(** X4: once [vm_frame_pin] has returned for a frame, no scan returns the
    entry of that frame, whatever the page directory handed to the
    scanner, the position of the clock pointer and the accessed bits. *)
Theorem pinned_frame_not_picked K kpage0 s a e :
  frame_lock s = false → frame_map s !! kpage0 = Some a →
  entries s !! a = Some e →
  ∃ s1, vm_frame_pin kpage0 s = Done tt s1 ∧
        ∀ pagedir s', clock_pick_evict_frame K pagedir s1 ≠ Done (Lelem a) s'.
Proof.
  intros Hl Hk He. eexists. split; [by apply vm_frame_set_pinned_run|].
  intros pagedir s' H. unfold clock_pick_evict_frame in H.
  apply bind_done in H as (n & s2 & [= <- <-] & H).
  destruct (decide _); [discriminate|].
  apply clock_scan_done in H as (_ & g & Hg & Hpg).
  setters. rewrite lookup_insert_eq in Hg. by injection Hg as <-.
Qed.

Lemma pinned_frame_not_picked_witness :
  ∃ s1, vm_frame_pin Pintos.F1 (Pintos.owned_by_T1 Pintos.tail_pinned)
        = Done tt s1 ∧
        ∀ pagedir s',
          clock_pick_evict_frame (Pintos.kern Pintos.tail_pinned) pagedir s1
          ≠ Done (Lelem Pintos.block1) s'.
Proof.
  apply (pinned_frame_not_picked (Pintos.kern Pintos.tail_pinned) Pintos.F1
           (Pintos.owned_by_T1 Pintos.tail_pinned) Pintos.block1
           (FTE Pintos.F1 Pintos.pageA Pintos.T1 false));
    vm_compute; reflexivity.
Defined.

(** Before the pin of the witness the scanner does return that entry. *)
Example unpinned_frame_picked :
  verdict (clock_pick_evict_frame (Pintos.kern Pintos.tail_pinned) 0
             (Pintos.owned_by_T1 Pintos.tail_pinned))
  = inl (Lelem Pintos.block1).
Proof. vm_compute. reflexivity. Qed.

(** ** Allocation and release *)

(** [vm_frame_allocate] when the pool has a page and the heap a block, in
    closed form. *)
Lemma vm_frame_allocate_direct K cur upage0 s p a :
  frame_lock s = false →
  palloc_pick K (user_pool s) = Some p →
  malloc_pick K (dom (entries s)) = Some a →
  frame_map s !! p = None →
  vm_frame_allocate K cur upage0 s
  = Done (Some p)
      (State false (<[p := a]> (frame_map s)) (frame_list s ++ [a])
         (clock_ptr s) (<[a := FTE p upage0 cur false]> (entries s))
         (user_pool s ∖ {[p]}) (accessed s)
         (trace s ++ [EvLockAcquire; EvPallocGet (Some p);
                      EvMalloc (Some a); EvLockRelease])
         (scan_log s)).
Proof.
  intros Hl Hp Hm Hfresh.
  unfold vm_frame_allocate, vm_frame_acquire, palloc_get_page, malloc,
    hash_insert, lock_acquire, lock_release.
  prim. rewrite Hl. setters. rewrite Hp. setters. rewrite Hm. setters.
  rewrite lookup_insert_eq. setters. rewrite Hfresh. setters.
  by rewrite <- !(assoc_L (++)).
Qed.

(** X5: a frame returned by [vm_frame_allocate], directly or after an
    eviction, is filed in the hash under its address, its entry is the
    last of the list and was not in it before, carries the page asked for
    and the calling thread and is not pinned; the frame is not in the pool
    and the lock is free. *)
Theorem allocate_registers_frame K cur upage0 s p s' :
  kernel_ok K → table_ok s →
  vm_frame_allocate K cur upage0 s = Done (Some p) s' →
  ∃ a l,
    frame_list s' = l ++ [a] ∧ (a ∉ l) ∧
    frame_map s' !! p = Some a ∧
    entries s' !! a = Some (FTE p upage0 cur false) ∧
    (p ∉ user_pool s') ∧ frame_lock s' = false.
Proof.
  intros HK Hok H. unfold vm_frame_allocate in H.
  apply bind_done in H as ([] & s1 & Hacq & H).
  apply (hoare_lock_acquire _ _ _ Hok) in Hacq.
  apply bind_done in H as (p0 & s2 & Hget & H).
  destruct (hoare_acquire K cur HK _ _ _ Hacq Hget) as (Hok2 & Hfresh & Hpool).
  apply bind_done in H as (fr & s3 & Hm & H).
  unfold malloc in Hm. prim. injection Hm as <- <-.
  destruct (malloc_pick K (dom (entries s2))) as [a|] eqn:Ha; simpl in H.
  2:{ setters. destruct (frame_lock s2); discriminate. }
  destruct HK as [_ Hheap]. apply Hheap, not_elem_of_dom in Ha.
  unfold hash_insert in H. prim. simpl in H.
  rewrite lookup_insert_eq in H. simpl in H. rewrite Hfresh in H. setters.
  destruct (frame_lock s2); [|discriminate]. injection H as <- <-.
  exists a, (frame_list s2). simpl.
  split; [done|]. split.
  { intros Hin. destruct (table_ok_elem _ _ Hok2 Hin) as (e & He & _).
    congruence. }
  by rewrite !lookup_insert_eq.
Qed.

Lemma allocate_registers_frame_witness :
  ∃ s' a l,
    vm_frame_allocate (Pintos.kern Pintos.tail_pinned) Pintos.T2 Pintos.pageC
      (Pintos.first_pinned Pintos.tail_pinned) = Done (Some Pintos.F2) s' ∧
    frame_list s' = l ++ [a] ∧ (a ∉ l) ∧
    frame_map s' !! Pintos.F2 = Some a ∧
    entries s' !! a = Some (FTE Pintos.F2 Pintos.pageC Pintos.T2 false) ∧
    (Pintos.F2 ∉ user_pool s') ∧ frame_lock s' = false.
Proof.
  eexists.
  assert (vm_frame_allocate (Pintos.kern Pintos.tail_pinned) Pintos.T2
            Pintos.pageC (Pintos.first_pinned Pintos.tail_pinned)
          = Done (Some Pintos.F2)
              (final (vm_frame_allocate (Pintos.kern Pintos.tail_pinned)
                        Pintos.T2 Pintos.pageC
                        (Pintos.first_pinned Pintos.tail_pinned)))) as Hrun.
  { vm_compute. reflexivity. }
  assert (table_ok (Pintos.first_pinned Pintos.tail_pinned)) as Hok.
  { apply (bool_decide_unpack _). vm_compute. exact I. }
  destruct (allocate_registers_frame _ _ _ _ _ _
              (kern_ok Pintos.tail_pinned) Hok Hrun)
    as (a & l & H).
  exists a, l. split; [exact Hrun | exact H].
Defined.

(** X6: for a page-aligned kernel page that the table holds,
    [vm_frame_free] and [vm_frame_remove_entry] both return, take the
    entry out of the hash and out of the list, where the other entries
    keep their order, and free its record; neither writes the clock
    pointer.  They differ in one call: [vm_frame_free] gives the page back
    to the pool, [vm_frame_remove_entry] leaves the pool as it is. *)
Theorem free_removes_one_entry K kpage0 s a :
  frame_lock s = false →
  is_kernel_vaddr K kpage0 = true → pg_ofs K kpage0 = 0 →
  frame_map s !! kpage0 = Some a →
  ∃ s1 s2,
    vm_frame_free K kpage0 s = Done tt s1 ∧
    vm_frame_remove_entry K kpage0 s = Done tt s2 ∧
    frame_map s1 = delete kpage0 (frame_map s) ∧ frame_map s2 = frame_map s1 ∧
    frame_list s1 = filter (λ x, x ≠ a) (frame_list s) ∧
    frame_list s2 = frame_list s1 ∧
    entries s1 = delete a (entries s) ∧ entries s2 = entries s1 ∧
    clock_ptr s1 = clock_ptr s ∧ clock_ptr s2 = clock_ptr s ∧
    user_pool s1 = {[kpage0]} ∪ user_pool s ∧ user_pool s2 = user_pool s ∧
    trace s1 = trace s ++ [EvLockAcquire; EvPallocFree kpage0; EvFree a;
                           EvLockRelease] ∧
    trace s2 = trace s ++ [EvLockAcquire; EvFree a; EvLockRelease] ∧
    frame_lock s1 = false ∧ frame_lock s2 = false.
Proof.
  intros Hl Hk Hofs Hm.
  assert (∀ b, (lock_acquire ;; vm_frame_do_free K kpage0 b ;; lock_release) s
               = Done tt
                   (traced [EvLockRelease]
                      (set_frame_lock false
                         (removed kpage0 a b
                            (traced [EvLockAcquire] (set_frame_lock true s))))))
    as Hrun.
  { intros b. rewrite (bind_run _ _ _ _ _ (lock_acquire_run s Hl)).
    erewrite bind_run.
    2:{ rewrite vm_frame_do_free_run. simpl. rewrite Hk. simpl.
        rewrite bool_decide_eq_true_2 by done. simpl. rewrite Hm. done. }
    by rewrite lock_release_run. }
  eexists _, _. split; [apply (Hrun true)|]. split; [apply (Hrun false)|].
  setters. by rewrite <- !(assoc_L (++)).
Qed.

Lemma free_removes_one_entry_witness :
  ∃ s1 s2,
    vm_frame_free (Pintos.kern Pintos.tail_pinned) Pintos.F1
      (Pintos.first_pinned Pintos.tail_pinned) = Done tt s1 ∧
    vm_frame_remove_entry (Pintos.kern Pintos.tail_pinned) Pintos.F1
      (Pintos.first_pinned Pintos.tail_pinned) = Done tt s2 ∧
    frame_list s1 = [Pintos.block2] ∧ frame_list s2 = [Pintos.block2] ∧
    user_pool s1 = {[Pintos.F1]} ∧ user_pool s2 = ∅.
Proof.
  destruct (free_removes_one_entry (Pintos.kern Pintos.tail_pinned) Pintos.F1
              (Pintos.first_pinned Pintos.tail_pinned) Pintos.block1)
    as (s1 & s2 & H1 & H2 & _ & _ & Hl1 & Hl2 & _ & _ & _ & _ & Hp1 & Hp2 & _);
    [vm_compute; reflexivity..|].
  exists s1, s2. split; [exact H1|]. split; [exact H2|].
  rewrite Hl2, Hl1, Hp1, Hp2. repeat apply conj; vm_compute; reflexivity.
Defined.

Lemma filter_ne_id (l : list Z) a : a ∉ l → filter (λ x, x ≠ a) l = l.
Proof.
  induction l as [|x l IH]; [done|]. intros Hnot.
  apply not_elem_of_cons in Hnot as [Hne Hnot].
  rewrite filter_cons_True by done. by rewrite IH.
Qed.

(** X7: allocation undone by release.  When the pool has a page and
    the heap a block, [vm_frame_allocate] followed by [vm_frame_free] of
    the page it returned brings the hash, the list, the entry records, the
    pool, the clock pointer and the accessed bits back to what they were;
    only the trace has grown. *)
Theorem allocate_free_round_trip K cur upage0 s p a :
  kernel_ok K → table_ok s → frame_lock s = false →
  palloc_pick K (user_pool s) = Some p →
  malloc_pick K (dom (entries s)) = Some a →
  is_kernel_vaddr K p = true → pg_ofs K p = 0 →
  (r ← vm_frame_allocate K cur upage0;
   match r with Some q => vm_frame_free K q | None => mret tt end) s
  = Done tt
      (traced [EvLockAcquire; EvPallocGet (Some p); EvMalloc (Some a);
               EvLockRelease; EvLockAcquire; EvPallocFree p; EvFree a;
               EvLockRelease] s).
Proof.
  intros [Hpool Hheap] Hok Hl Hp Hm Hk Hofs.
  pose proof Hok as (_ & _ & _ & Hdisj).
  assert (frame_map s !! p = None) as Hfresh.
  { apply not_elem_of_dom. apply Hpool in Hp. set_solver. }
  assert (entries s !! a = None) as Ha by (by apply not_elem_of_dom, Hheap).
  assert (a ∉ frame_list s) as Hnot.
  { intros Hin. destruct (table_ok_elem _ _ Hok Hin) as (e & He & _).
    congruence. }
  rewrite (bind_run _ _ _ _ _
             (vm_frame_allocate_direct K cur upage0 s p a Hl Hp Hm Hfresh)).
  cbv beta iota. unfold vm_frame_free.
  erewrite bind_run by (by apply lock_acquire_run).
  erewrite bind_run.
  2:{ rewrite vm_frame_do_free_run. setters. rewrite Hk. simpl.
      rewrite bool_decide_eq_true_2 by done. simpl.
      rewrite lookup_insert_eq. reflexivity. }
  rewrite lock_release_run by done. f_equal. setters.
  rewrite delete_insert_eq, delete_insert_eq, !delete_id by done.
  rewrite filter_app, filter_cons_False, filter_nil, app_nil_r by naive_solver.
  rewrite filter_ne_id by done.
  replace ({[p]} ∪ user_pool s ∖ {[p]}) with (user_pool s).
  2:{ apply Hpool in Hp. apply set_eq. intros x.
      destruct (decide (x = p)); set_solver. }
  destruct s; simpl in *. subst. by rewrite <- !(assoc_L (++)).
Qed.

Lemma allocate_free_round_trip_witness :
  (r ← vm_frame_allocate (Pintos.kern Pintos.tail_pinned) Pintos.T1 Pintos.pageA;
   match r with
   | Some q => vm_frame_free (Pintos.kern Pintos.tail_pinned) q
   | None => mret tt
   end) (Pintos.fresh {[Pintos.F1; Pintos.F2]})
  = Done tt
      (traced [EvLockAcquire; EvPallocGet (Some Pintos.F1);
               EvMalloc (Some Pintos.block1); EvLockRelease; EvLockAcquire;
               EvPallocFree Pintos.F1; EvFree Pintos.block1; EvLockRelease]
         (Pintos.fresh {[Pintos.F1; Pintos.F2]})).
Proof.
  apply allocate_free_round_trip.
  - apply kern_ok.
  - apply (bool_decide_unpack _). vm_compute. exact I.
  - reflexivity.
  - vm_compute. reflexivity.
  - vm_compute. reflexivity.
  - vm_compute. reflexivity.
  - vm_compute. reflexivity.
Defined.

(** X8: eviction with nothing to evict.  When the pool has no page
    and the hash no entry, [vm_frame_allocate] stops at the PANIC of line
    176 before any entry is inspected: the lock is held, and the clock
    pointer and the ghost log are untouched.  [clock_next_frame] on an
    empty list stops at the PANIC of line 202 wherever the clock pointer
    is. *)
Theorem evict_on_empty_table_panics K cur upage0 s :
  frame_lock s = false → palloc_pick K (user_pool s) = None →
  (frame_map s = ∅ →
     vm_frame_allocate K cur upage0 s = Halt PanicEmptyTable (scan_start s)) ∧
  (frame_list s = [] → clock_next_frame s = Halt PanicEmptyTable s).
Proof.
  intros Hl Hp. split.
  - intros Hm. unfold vm_frame_allocate.
    rewrite (bind_run _ _ _ _ _ (lock_acquire_run s Hl)).
    unfold vm_frame_acquire, vm_frame_evict, clock_pick_evict_frame,
      palloc_get_page.
    prim. setters. rewrite Hp. setters. rewrite Hm, map_size_empty. simpl.
    unfold scan_start. setters. by rewrite Hm, <- (assoc_L (++)).
  - intros Hlist. unfold clock_next_frame. prim. by rewrite Hlist.
Qed.

Lemma evict_on_empty_table_panics_witness :
  (frame_map (Pintos.fresh ∅) = ∅ →
     vm_frame_allocate (Pintos.kern Pintos.tail_pinned) Pintos.T1 Pintos.pageA
       (Pintos.fresh ∅)
     = Halt PanicEmptyTable (scan_start (Pintos.fresh ∅))) ∧
  (frame_list (Pintos.fresh ∅) = [] →
     clock_next_frame (Pintos.fresh ∅) = Halt PanicEmptyTable (Pintos.fresh ∅)).
Proof.
  apply evict_on_empty_table_panics; vm_compute; reflexivity.
Defined.

(** ** The scanner *)

(** What a completed scan leaves behind: the clock pointer is on the
    pointer returned, which was the last one inspected and is not pinned,
    and the accessed bit of its page is clear in the page directory
    given. *)
Lemma clock_scan_victim K iters pagedir s e s' :
  clock_scan K iters pagedir s = Done e s' →
  clock_ptr s' = e ∧ e ≠ Null ∧
  (∃ lg, scan_log s' = scan_log s ++ lg ++ [e]) ∧
  ∃ f, fields K (entries s) e = Some f ∧ pinned f = false ∧
       (pagedir, upage f) ∉ accessed s'.
Proof.
  revert s. induction iters as [|n IH]; intros s; simpl; [discriminate|].
  intros H. apply bind_done in H as (p & s1 & Hn & H).
  apply clock_next_frame_done in Hn as [-> Hnull].
  apply bind_done in H as (f & s2 & Hd & H).
  apply deref_done in Hd as [-> Hf]. simpl in Hf.
  assert (∀ s2, entries s2 = entries s → scan_log s2 = scan_log s ++ [p] →
            clock_scan K n pagedir s2 = Done e s' →
            clock_ptr s' = e ∧ e ≠ Null ∧
            (∃ lg, scan_log s' = scan_log s ++ lg ++ [e]) ∧
            ∃ f, fields K (entries s) e = Some f ∧ pinned f = false ∧
                 (pagedir, upage f) ∉ accessed s') as Hrest.
  { intros s2 He2 Hlog H2.
    destruct (IH _ H2) as (Hc & Hne & (lg & Hlg) & g & Hg & Hpg & Hag).
    split; [done|]. split; [done|]. split.
    - exists (p :: lg). rewrite Hlg, Hlog. by rewrite <- (assoc_L (++)).
    - exists g. by rewrite <- He2. }
  destruct (pinned f) eqn:Hp; [by eapply Hrest; [..|exact H]|].
  unfold pagedir_is_accessed, pagedir_set_accessed in H. prim.
  destruct (bool_decide _) eqn:Hb.
  - by eapply Hrest; [..|exact H].
  - apply bool_decide_eq_false in Hb. injection H as <- <-. simpl.
    split; [done|]. split; [done|]. split; [by exists []|].
    exists f. done.
Qed.

(** The calls of the scanner, however it ends: it only queries and clears
    accessed bits of the page directory given, and so sets no bit and
    clears none of another page directory. *)
Lemma clock_scan_calls K iters pagedir s :
  (∃ tr, trace (final (clock_scan K iters pagedir s)) = trace s ++ tr ∧
         Forall (scanner_call pagedir) tr) ∧
  accessed (final (clock_scan K iters pagedir s)) ⊆ accessed s ∧
  (∀ pd up, pd ≠ pagedir → (pd, up) ∈ accessed s →
     (pd, up) ∈ accessed (final (clock_scan K iters pagedir s))).
Proof.
  revert s. induction iters as [|n IH]; intros s; simpl.
  { split; [|done]. exists []. split; [by rewrite app_nil_r | constructor]. }
  rewrite final_bind.
  assert ((∃ tr, trace s = trace s ++ tr ∧ Forall (scanner_call pagedir) tr) ∧
          accessed s ⊆ accessed s ∧
          (∀ pd up, pd ≠ pagedir → (pd, up) ∈ accessed s → (pd, up) ∈ accessed s))
    as Hstop.
  { split; [|done]. exists []. split; [by rewrite app_nil_r | constructor]. }
  destruct (clock_next_frame s) as [p s1|e s1] eqn:Hn; simpl.
  2:{ pose proof (clock_next_frame_same s) as Hs. rewrite Hn in Hs.
      revert Hn. unfold clock_next_frame. prim.
      destruct (list_empty (frame_list s)); [by intros [= _ <-]|].
      destruct (clock_ptr s) as [|a|]; simpl; try discriminate.
      destruct (list_next (frame_list s) a); simpl; [discriminate|].
      by intros [= _ <-]. }
  apply clock_next_frame_done in Hn as [-> _].
  rewrite final_bind, deref_fields.
  destruct (fields K _ p) as [f|]; [|exact Hstop].
  destruct (pinned f); [apply (IH (set_scan_log _ (set_clock_ptr p s)))|].
  prim. destruct (bool_decide _) eqn:Hb.
  - match goal with |- context [clock_scan K n pagedir ?s2] =>
      destruct (IH s2) as ((tr & Htr & Hq) & Hsub & Hother) end.
    split; [|split].
    + exists (EvIsAccessed pagedir (upage f) true
              :: EvSetAccessed pagedir (upage f) false :: tr).
      split; [rewrite Htr; setters; by rewrite <- !(assoc_L (++))|].
      by repeat constructor.
    + setters. set_solver.
    + intros pd up Hpd Hin. apply Hother; [done|]. setters. set_solver.
  - simpl. split; [|done].
    exists [EvIsAccessed pagedir (upage f) false]. split; [done|].
    by repeat constructor.
Qed.

(** X9: however [clock_pick_evict_frame] ends, it has called
    [clock_next_frame] at most [2n + 1] times for [n] the size of the
    hash, and has not touched the lock, the hash, the list, the entry
    records or the pool; when it returns, the pointer returned is the last
    one inspected and the clock pointer is left on it. *)
Theorem scanner_bounded_and_harmless K pagedir s :
  same_table s (final (clock_pick_evict_frame K pagedir s)) ∧
  (∃ lg,
     scan_log (final (clock_pick_evict_frame K pagedir s)) = scan_log s ++ lg ∧
     (length lg ≤ 2 * size (frame_map s) + 1)%nat) ∧
  (∀ e s', clock_pick_evict_frame K pagedir s = Done e s' →
     clock_ptr s' = e ∧ ∃ lg, scan_log s' = scan_log s ++ lg ++ [e]).
Proof.
  split; [apply clock_pick_same|]. split; [apply clock_pick_inspections|].
  intros e s' H. unfold clock_pick_evict_frame in H.
  apply bind_done in H as (n & s1 & [= <- <-] & H).
  destruct (decide _); [discriminate|].
  apply clock_scan_victim in H as (Hc & _ & Hlg & _). done.
Qed.

(** X10: the only calls [clock_pick_evict_frame] makes outside the
    file are [pagedir_is_accessed] and [pagedir_set_accessed (.., false)]
    on the page directory it was given.  It sets no accessed bit, and
    leaves the bits of every other page directory as they are. *)
Theorem scanner_only_clears_given_pagedir K pagedir s :
  (∃ tr,
     trace (final (clock_pick_evict_frame K pagedir s)) = trace s ++ tr ∧
     Forall (scanner_call pagedir) tr) ∧
  accessed (final (clock_pick_evict_frame K pagedir s)) ⊆ accessed s ∧
  (∀ pd up, pd ≠ pagedir → (pd, up) ∈ accessed s →
     (pd, up) ∈ accessed (final (clock_pick_evict_frame K pagedir s))).
Proof.
  unfold clock_pick_evict_frame. prim. destruct (decide _).
  - simpl. split; [|done]. exists []. split; [by rewrite app_nil_r | constructor].
  - apply clock_scan_calls.
Qed.

(** X11: an entry returned by [clock_pick_evict_frame] is not pinned,
    and the accessed bit of its user page is clear in the page directory
    that was given, either because it was found clear or because an
    earlier inspection cleared it. *)
Theorem victim_unpinned_and_unreferenced K pagedir s a s' :
  clock_pick_evict_frame K pagedir s = Done (Lelem a) s' →
  a ∈ frame_list s ∧
  ∃ f, entries s !! a = Some f ∧ entries s' !! a = Some f ∧
       pinned f = false ∧ (pagedir, upage f) ∉ accessed s'.
Proof.
  intros H. split; [by eapply clock_pick_elem|].
  pose proof (clock_pick_same K pagedir s) as Hs. rewrite H in Hs.
  destruct Hs as (_ & _ & _ & He & _). simpl in He.
  unfold clock_pick_evict_frame in H.
  apply bind_done in H as (n & s1 & [= <- <-] & H).
  destruct (decide _); [discriminate|].
  apply clock_scan_victim in H as (_ & _ & _ & f & Hf & Hp & Ha).
  exists f. by rewrite He.
Qed.

Lemma victim_unpinned_and_unreferenced_witness :
  ∃ s',
    clock_pick_evict_frame (Pintos.kern Pintos.tail_pinned)
      (thread_pagedir (Pintos.kern Pintos.tail_pinned) Pintos.T1)
      (Pintos.owned_by_T1 Pintos.tail_pinned) = Done (Lelem Pintos.block1) s' ∧
    Pintos.block1 ∈ frame_list (Pintos.owned_by_T1 Pintos.tail_pinned) ∧
    ∃ f, entries (Pintos.owned_by_T1 Pintos.tail_pinned) !! Pintos.block1
         = Some f ∧
         entries s' !! Pintos.block1 = Some f ∧ pinned f = false ∧
         (thread_pagedir (Pintos.kern Pintos.tail_pinned) Pintos.T1, upage f)
         ∉ accessed s'.
Proof.
  eexists. split; [vm_compute; reflexivity|].
  apply (victim_unpinned_and_unreferenced (Pintos.kern Pintos.tail_pinned)
           (thread_pagedir (Pintos.kern Pintos.tail_pinned) Pintos.T1)
           (Pintos.owned_by_T1 Pintos.tail_pinned)).
  vm_compute. reflexivity.
Defined.

(** X12: second chance.  In a well-formed table, with the clock
    pointer null or at the end of the list and the bytes at the tail
    sentinel reading as pinned, [clock_pick_evict_frame] returns an entry
    of the list whenever one is not pinned, even if every page has been
    accessed: the entry returned is unpinned, its accessed bit is clear
    afterwards, and the clock pointer is left on it. *)
Theorem second_chance_from_reset K pagedir s :
  table_ok s →
  clock_ptr s = Null ∨ clock_ptr s = ListEnd →
  pinned (list_end_entry K) = true →
  (∃ a, a ∈ frame_list s ∧ unpinned s a) →
  ∃ a f s',
    clock_pick_evict_frame K pagedir s = Done (Lelem a) s' ∧
    a ∈ frame_list s ∧ entries s !! a = Some f ∧ pinned f = false ∧
    ((pagedir, upage f) ∉ accessed s') ∧ clock_ptr s' = Lelem a.
Proof.
  intros Hok Hc Hg Hex.
  destruct (scan_from_reset_finds_victim K pagedir s Hok Hc Hg Hex)
    as (a & s' & Hrun & Ha & _).
  pose proof Hrun as H. unfold clock_pick_evict_frame in H.
  apply bind_done in H as (n & s1 & [= <- <-] & H).
  destruct (decide _); [discriminate|].
  apply clock_scan_victim in H as (Hcp & _ & _ & f & Hf & Hp & Hacc).
  exists a, f, s'. done.
Qed.

Lemma second_chance_from_reset_witness :
  ∃ a f s',
    clock_pick_evict_frame (Pintos.kern Pintos.tail_pinned)
      (thread_pagedir (Pintos.kern Pintos.tail_pinned) Pintos.T1)
      (Pintos.owned_by_T1 Pintos.tail_pinned) = Done (Lelem a) s' ∧
    a ∈ frame_list (Pintos.owned_by_T1 Pintos.tail_pinned) ∧
    entries (Pintos.owned_by_T1 Pintos.tail_pinned) !! a = Some f ∧
    pinned f = false ∧
    ((thread_pagedir (Pintos.kern Pintos.tail_pinned) Pintos.T1, upage f)
     ∉ accessed s') ∧
    clock_ptr s' = Lelem a.
Proof.
  apply second_chance_from_reset.
  - apply (bool_decide_unpack _). vm_compute. exact I.
  - left. vm_compute. reflexivity.
  - reflexivity.
  - exists Pintos.block1. split.
    + apply (bool_decide_unpack _). vm_compute. exact I.
    + exists (FTE Pintos.F1 Pintos.pageA Pintos.T1 false).
      split; vm_compute; reflexivity.
Defined.

(** In the witness the page of the one entry has been accessed: the
    scanner inspects the entry, the tail sentinel and the entry again. *)
Example second_chance_log :
  scan_log (final (clock_pick_evict_frame (Pintos.kern Pintos.tail_pinned)
                     (thread_pagedir (Pintos.kern Pintos.tail_pinned) Pintos.T1)
                     (Pintos.owned_by_T1 Pintos.tail_pinned)))
  = [Lelem Pintos.block1; ListEnd; Lelem Pintos.block1].
Proof. vm_compute. reflexivity. Qed.

(** ** Along every history *)

(** X13: after any history of public operations that begins with the
    initialisation, no two entries of the list are for the same frame, and
    no entry is linked twice. *)
Theorem frames_unique_after_history K ops s s' :
  kernel_ok K → run_ops K (Initialize :: ops) s = Done tt s' →
  NoDup (frame_list s') ∧
  ∀ a b ea eb,
    a ∈ frame_list s' → b ∈ frame_list s' →
    entries s' !! a = Some ea → entries s' !! b = Some eb →
    kpage ea = kpage eb → a = b.
Proof.
  intros HK H. simpl in H. apply bind_done in H as (r & s1 & H1 & H2).
  assert (table_ok s') as Hok.
  { eapply run_ops_table_ok; [done| |exact H2].
    eapply (run_op_table_ok K Initialize); eauto. }
  split; [by destruct Hok|].
  intros a b ea eb Ha Hb Hea Heb Hk.
  destruct (table_ok_elem _ _ Hok Ha) as (ea' & Hea' & Hma).
  destruct (table_ok_elem _ _ Hok Hb) as (eb' & Heb' & Hmb).
  assert (ea' = ea) as -> by congruence.
  assert (eb' = eb) as -> by congruence.
  rewrite Hk in Hma. congruence.
Qed.

Lemma frames_unique_after_history_witness :
  ∃ s',
    run_ops (Pintos.kern Pintos.tail_pinned)
      [Initialize; Allocate Pintos.T1 Pintos.pageA;
       Allocate Pintos.T1 Pintos.pageB; Allocate Pintos.T2 Pintos.pageC]
      (Pintos.boot {[Pintos.F1; Pintos.F2]}) = Done tt s' ∧
    NoDup (frame_list s') ∧
    ∀ a b ea eb,
      a ∈ frame_list s' → b ∈ frame_list s' →
      entries s' !! a = Some ea → entries s' !! b = Some eb →
      kpage ea = kpage eb → a = b.
Proof.
  eexists. split; [vm_compute; reflexivity|].
  apply (frames_unique_after_history (Pintos.kern Pintos.tail_pinned)
           [Allocate Pintos.T1 Pintos.pageA; Allocate Pintos.T1 Pintos.pageB;
            Allocate Pintos.T2 Pintos.pageC]
           (Pintos.boot {[Pintos.F1; Pintos.F2]})).
  - apply kern_ok.
  - vm_compute. reflexivity.
Defined.

(** X14: after any history of public operations that begins with the
    initialisation, every entry of the list has a live record, the hash
    leads from the frame of that record back to the entry, and that frame
    is not free in the pool: no frame is at once in use and free. *)
Theorem frames_in_use_not_free K ops s s' :
  kernel_ok K → run_ops K (Initialize :: ops) s = Done tt s' →
  ∀ a, a ∈ frame_list s' →
    ∃ e, entries s' !! a = Some e ∧ frame_map s' !! kpage e = Some a ∧
         kpage e ∉ user_pool s'.
Proof.
  intros HK H a Ha. simpl in H. apply bind_done in H as (r & s1 & H1 & H2).
  assert (table_ok s') as Hok.
  { eapply run_ops_table_ok; [done| |exact H2].
    eapply (run_op_table_ok K Initialize); eauto. }
  destruct (table_ok_elem _ _ Hok Ha) as (e & He & Hm).
  exists e. split; [done|]. split; [done|].
  destruct Hok as (_ & _ & _ & Hd).
  assert (kpage e ∈ dom (frame_map s')) by (apply elem_of_dom; eauto).
  set_solver.
Qed.

Lemma frames_in_use_not_free_witness :
  ∃ s',
    run_ops (Pintos.kern Pintos.tail_pinned)
      [Initialize; Allocate Pintos.T1 Pintos.pageA;
       Allocate Pintos.T1 Pintos.pageB; FreeFrame Pintos.F1]
      (Pintos.boot {[Pintos.F1; Pintos.F2]}) = Done tt s' ∧
    ∀ a, a ∈ frame_list s' →
      ∃ e, entries s' !! a = Some e ∧ frame_map s' !! kpage e = Some a ∧
           kpage e ∉ user_pool s'.
Proof.
  eexists. split; [vm_compute; reflexivity|].
  apply (frames_in_use_not_free (Pintos.kern Pintos.tail_pinned)
           [Allocate Pintos.T1 Pintos.pageA; Allocate Pintos.T1 Pintos.pageB;
            FreeFrame Pintos.F1]
           (Pintos.boot {[Pintos.F1; Pintos.F2]})).
  - apply kern_ok.
  - vm_compute. reflexivity.
Defined.

(** ** The critical section *)

Lemma ics_emit tr0 ev :
  ¬ lock_event ev →
  hoare (in_critical_section tr0) (emit ev) (λ _, in_critical_section tr0).
Proof.
  intros Hev s [] s' (Hl & tr & Htr & Hall) [= <-].
  split; [done|]. exists (tr ++ [ev]). setters. rewrite Htr.
  split; [by rewrite <- (assoc_L (++))|].
  apply Forall_app. split; [done|]. by constructor.
Qed.

Lemma ics_modify tr0 (f : state → state) :
  (∀ s, frame_lock (f s) = frame_lock s ∧ trace (f s) = trace s) →
  hoare (in_critical_section tr0) (modify f) (λ _, in_critical_section tr0).
Proof.
  intros Hf s [] s' (Hl & tr & Htr & Hall) [= <-].
  destruct (Hf s) as [Hl' Htr']. split; [congruence|].
  exists tr. by rewrite Htr'.
Qed.

Lemma ics_extend tr0 s s' tr' :
  in_critical_section tr0 s → frame_lock s' = frame_lock s →
  trace s' = trace s ++ tr' → Forall (λ ev, ¬ lock_event ev) tr' →
  in_critical_section tr0 s'.
Proof.
  intros (Hl & tr & Htr & Hall) Hl' Htr' Hall'. split; [congruence|].
  exists (tr ++ tr'). rewrite Htr', Htr.
  split; [by rewrite <- (assoc_L (++))|]. by apply Forall_app.
Qed.

Lemma ics_palloc_get_page K tr0 :
  hoare (in_critical_section tr0) (palloc_get_page K)
    (λ _, in_critical_section tr0).
Proof.
  intros s r s' Hics. unfold palloc_get_page. prim.
  destruct (palloc_pick K (user_pool s)); intros [= ? ?]; subst;
    (eapply ics_extend; [exact Hics|done|done|]);
    constructor; [|done| |done]; by intros [|].
Qed.

Lemma ics_do_free K tr0 k b :
  hoare (in_critical_section tr0) (vm_frame_do_free K k b)
    (λ _, in_critical_section tr0).
Proof.
  intros s [] s' Hics. rewrite vm_frame_do_free_run.
  repeat case_match; try discriminate; intros [= <-]; [|done].
  eapply ics_extend; [exact Hics|done|done|].
  destruct b; repeat constructor; by intros [|].
Qed.

Lemma scanner_call_not_lock pd ev : scanner_call pd ev → ¬ lock_event ev.
Proof. destruct ev; simpl; try done; by intros _ [|]. Qed.

Lemma ics_clock_pick K tr0 pagedir :
  hoare (in_critical_section tr0) (clock_pick_evict_frame K pagedir)
    (λ _, in_critical_section tr0).
Proof.
  intros s e s' Hics H.
  pose proof (clock_pick_same K pagedir s) as (Hl & _).
  assert (∃ tr, trace (final (clock_pick_evict_frame K pagedir s)) = trace s ++ tr ∧
                Forall (scanner_call pagedir) tr) as (tr & Htr & Hall).
  { unfold clock_pick_evict_frame. prim. destruct (decide _).
    - exists []. split; [by rewrite app_nil_r | constructor].
    - apply clock_scan_calls. }
  rewrite H in Hl, Htr. simpl in Hl, Htr.
  eapply ics_extend; [exact Hics|done|done|].
  eapply Forall_impl; [exact Hall|]. apply scanner_call_not_lock.
Qed.

Lemma ics_assert tr0 line b :
  hoare (in_critical_section tr0) (ASSERT line b) (λ _, in_critical_section tr0).
Proof. apply hoare_assert. Qed.

Lemma ics_acquire K tr0 cur :
  hoare (in_critical_section tr0) (vm_frame_acquire K cur)
    (λ _, in_critical_section tr0).
Proof.
  unfold vm_frame_acquire.
  eapply hoare_bind; [apply ics_palloc_get_page|]. intros [p|]; simpl.
  { intros s q s' Hics [= <- <-]. done. }
  unfold vm_frame_evict.
  eapply hoare_bind; [apply ics_clock_pick|]. intros e. simpl.
  eapply hoare_bind; [apply hoare_assert|]. intros []; simpl.
  eapply hoare_bind; [apply hoare_deref|]. intros v. simpl.
  eapply hoare_bind; [apply hoare_assert|]. intros []; simpl.
  eapply hoare_bind; [apply hoare_assert|]. intros []; simpl.
  eapply hoare_bind; [apply ics_emit; by intros [|]|]. intros []; simpl.
  eapply hoare_bind.
  { unfold vm_swap_out. eapply hoare_bind; [apply ics_emit; by intros [|]|].
    intros []. apply (hoare_ret (λ _, in_critical_section tr0)). }
  intros idx. simpl.
  eapply hoare_bind; [apply ics_emit; by intros [|]|]. intros []; simpl.
  eapply hoare_bind; [apply ics_do_free|]. intros []; simpl.
  eapply hoare_bind; [apply ics_palloc_get_page|]. intros [p|]; simpl.
  - intros s q s' Hics [= <- <-]. done.
  - apply hoare_halt.
Qed.

(** Leaving the critical section. *)
Lemma ics_lock_release tr0 s s' :
  in_critical_section tr0 s → lock_release s = Done tt s' →
  frame_lock s' = false ∧
  ∃ tr, trace s' = tr0 ++ EvLockAcquire :: tr ++ [EvLockRelease] ∧
        Forall (λ ev, ¬ lock_event ev) tr.
Proof.
  intros (Hl & tr & Htr & Hall) H. rewrite lock_release_run in H by done.
  injection H as <-. split; [done|]. exists tr. setters.
  rewrite Htr. by rewrite <- (assoc_L (++)).
Qed.

(** Entering it. *)
Lemma ics_lock_acquire s s' :
  lock_acquire s = Done tt s' →
  frame_lock s = false ∧ in_critical_section (trace s) s'.
Proof.
  unfold lock_acquire. prim. destruct (frame_lock s) eqn:Hl; [discriminate|].
  intros [= <-]. split; [done|]. split; [done|]. by exists [].
Qed.

(** X15: every public operation that returns has released the lock.
    Apart from the initialisation it started with the lock free, took it
    first and released it last, and every other call it made outside the
    file, to the page pool, the heap, the page directories, the swap
    device or the supplemental page table, lies between the two: none is
    made without the lock, and the lock is held across a whole eviction. *)
Theorem public_op_is_one_critical_section K op s r s' :
  run_op K op s = Done r s' →
  frame_lock s' = false ∧
  (op ≠ Initialize →
     frame_lock s = false ∧
     ∃ tr, trace s' = trace s ++ EvLockAcquire :: tr ++ [EvLockRelease] ∧
           Forall (λ ev, ¬ lock_event ev) tr).
Proof.
  intros H.
  assert (∀ b k s1, (lock_acquire ;; vm_frame_do_free K k b ;; lock_release) s
                    = Done tt s1 →
            frame_lock s1 = false ∧ frame_lock s = false ∧
            ∃ tr, trace s1 = trace s ++ EvLockAcquire :: tr ++ [EvLockRelease] ∧
                  Forall (λ ev, ¬ lock_event ev) tr) as Hfree.
  { intros b k s1 H1. apply bind_done in H1 as ([] & s2 & Ha & H1).
    apply ics_lock_acquire in Ha as [Hl Hics].
    apply bind_done in H1 as ([] & s3 & Hf & H1).
    apply (ics_do_free K _ k b _ _ _ Hics) in Hf.
    destruct (ics_lock_release _ _ _ Hf H1) as [? ?]. done. }
  assert (∀ k v s1, vm_frame_set_pinned k v s = Done tt s1 →
            frame_lock s1 = false ∧ frame_lock s = false ∧
            ∃ tr, trace s1 = trace s ++ EvLockAcquire :: tr ++ [EvLockRelease] ∧
                  Forall (λ ev, ¬ lock_event ev) tr) as Hpin.
  { intros k v s1 H1. unfold vm_frame_set_pinned in H1.
    apply bind_done in H1 as ([] & s2 & Ha & H1).
    apply ics_lock_acquire in Ha as [Hl Hics].
    unfold hash_find in H1. prim.
    destruct (frame_map s2 !! k) as [f|]; [|discriminate].
    destruct (entries s2 !! f) as [e|]; [|discriminate].
    destruct Hics as (Hl2 & tr & Htr & Hall). setters. rewrite Hl2 in H1.
    injection H1 as <-. simpl. split; [done|]. split; [done|].
    exists tr. rewrite Htr. split; [by rewrite <- (assoc_L (++))|done]. }
  destruct op as [|cur up|k|k|k|k]; simpl in H.
  - apply bind_done in H as ([] & s1 & H1 & [= _ <-]).
    unfold vm_frame_init in H1. prim. injection H1 as <-. done.
  - unfold vm_frame_allocate in H.
    apply bind_done in H as ([] & s1 & Ha & H).
    apply ics_lock_acquire in Ha as [Hl Hics].
    apply bind_done in H as (p & s2 & Hacq & H).
    apply (ics_acquire K _ cur _ _ _ Hics) in Hacq.
    apply bind_done in H as (fr & s3 & Hm & H).
    assert (in_critical_section (trace s) s3) as Hics3.
    { unfold malloc in Hm. prim. injection Hm as <- <-.
      eapply ics_extend; [exact Hacq|done|done|].
      constructor; [by intros [|]|done]. }
    destruct fr as [a|].
    + apply bind_done in H as ([] & s4 & H4 & H).
      assert (in_critical_section (trace s) s4) as Hics4.
      { eapply ics_modify; [|exact Hics3|exact H4]. done. }
      apply bind_done in H as ([] & s5 & H5 & H).
      assert (in_critical_section (trace s) s5) as Hics5.
      { unfold hash_insert in H5. prim.
        destruct (entries s4 !! a) as [e|]; [|discriminate].
        destruct (frame_map s4 !! kpage e); [discriminate|].
        injection H5 as <-.
        by eapply ics_extend; [exact Hics4|..]; rewrite ?app_nil_r. }
      apply bind_done in H as ([] & s6 & H6 & H).
      assert (in_critical_section (trace s) s6) as Hics6.
      { eapply ics_modify; [|exact Hics5|exact H6]. done. }
      apply bind_done in H as ([] & s7 & H7 & [= _ <-]).
      destruct (ics_lock_release _ _ _ Hics6 H7) as [? ?]. done.
    + apply bind_done in H as ([] & s4 & H4 & [= _ <-]).
      destruct (ics_lock_release _ _ _ Hics3 H4) as [? ?]. done.
  - apply bind_done in H as ([] & s1 & H1 & [= _ <-]).
    destruct (Hfree true k s1 H1) as (? & ? & ?). done.
  - apply bind_done in H as ([] & s1 & H1 & [= _ <-]).
    destruct (Hfree false k s1 H1) as (? & ? & ?). done.
  - apply bind_done in H as ([] & s1 & H1 & [= _ <-]).
    destruct (Hpin k true s1 H1) as (? & ? & ?). done.
  - apply bind_done in H as ([] & s1 & H1 & [= _ <-]).
    destruct (Hpin k false s1 H1) as (? & ? & ?). done.
Qed.

Lemma public_op_is_one_critical_section_witness :
  ∃ r s',
    run_op (Pintos.kern Pintos.tail_pinned) (Allocate Pintos.T2 Pintos.pageC)
      (Pintos.first_pinned Pintos.tail_pinned) = Done r s' ∧
    frame_lock s' = false ∧
    (Allocate Pintos.T2 Pintos.pageC ≠ Initialize →
       frame_lock (Pintos.first_pinned Pintos.tail_pinned) = false ∧
       ∃ tr, trace s'
             = trace (Pintos.first_pinned Pintos.tail_pinned)
               ++ EvLockAcquire :: tr ++ [EvLockRelease] ∧
             Forall (λ ev, ¬ lock_event ev) tr).
Proof.
  assert (run_op (Pintos.kern Pintos.tail_pinned)
            (Allocate Pintos.T2 Pintos.pageC)
            (Pintos.first_pinned Pintos.tail_pinned)
          = Done (Some Pintos.F2)
              (final (run_op (Pintos.kern Pintos.tail_pinned)
                        (Allocate Pintos.T2 Pintos.pageC)
                        (Pintos.first_pinned Pintos.tail_pinned)))) as Hrun.
  { vm_compute. reflexivity. }
  eexists _, _. split; [exact Hrun|].
  exact (public_op_is_one_critical_section _ _ _ _ _ Hrun).
Defined.

(** ** Eviction keeps the frames of the table *)

Lemma ASSERT_done line b s s' : ASSERT line b s = Done tt s' → b = true ∧ s' = s.
Proof. destruct b; simpl; [by intros [= <-] | discriminate]. Qed.

Lemma filter_ne_length (l : list Z) a :
  NoDup l → a ∈ l → S (length (filter (λ x, x ≠ a) l)) = length l.
Proof.
  induction l as [|x l IH]; intros Hnd Ha; [by apply elem_of_nil in Ha|].
  apply NoDup_cons in Hnd as [Hx Hnd].
  destruct (decide (x = a)) as [->|Hne].
  - rewrite filter_cons_False by naive_solver. by rewrite filter_ne_id.
  - rewrite filter_cons_True by done. simpl. f_equal. apply IH; [done|].
    apply elem_of_cons in Ha as [->|Ha]; done.
Qed.

(** A completed [vm_frame_evict] has passed its assertions and those of
    [vm_frame_do_free]. *)
Lemma vm_frame_evict_asserts K cur s a v s1 p s2 :
  clock_pick_evict_frame K (thread_pagedir K cur) s = Done (Lelem a) s1 →
  entries s !! a = Some v →
  vm_frame_evict K cur s = Done p s2 →
  t v ≠ 0 ∧ thread_pagedir K (t v) ≠ 3435973836 ∧
  is_kernel_vaddr K (kpage v) = true ∧ pg_ofs K (kpage v) = 0.
Proof.
  intros Hpick Ha H.
  pose proof (clock_pick_same K (thread_pagedir K cur) s) as Hs.
  rewrite Hpick in Hs. destruct Hs as (_ & _ & _ & He1 & _). simpl in He1.
  unfold vm_frame_evict in H. rewrite (bind_run _ _ _ _ _ Hpick) in H.
  apply bind_done in H as ([] & sx & H0 & H).
  apply ASSERT_done in H0 as [_ ->].
  apply bind_done in H as (v' & sx & Hd & H).
  apply deref_done in Hd as [-> Hf]. simpl in Hf. rewrite He1, Ha in Hf.
  injection Hf as <-.
  apply bind_done in H as ([] & sx & H0 & H).
  apply ASSERT_done in H0 as [Ht ->]. apply bool_decide_eq_true in Ht.
  apply bind_done in H as ([] & sx & H0 & H).
  apply ASSERT_done in H0 as [Hpd ->]. apply bool_decide_eq_true in Hpd.
  apply bind_done in H as ([] & sx & _ & H).
  apply bind_done in H as (idx & sy & _ & H).
  apply bind_done in H as ([] & sz & _ & H).
  apply bind_done in H as ([] & sw & Hdf & _).
  rewrite vm_frame_do_free_run in Hdf.
  destruct (frame_lock sz); simpl in Hdf; [|discriminate].
  destruct (is_kernel_vaddr K (kpage v)); simpl in Hdf; [|discriminate].
  destruct (bool_decide (pg_ofs K (kpage v) = 0)) eqn:Hofs; simpl in Hdf;
    [|discriminate].
  apply bool_decide_eq_true in Hofs. done.
Qed.

(** X16: eviction conserves the table.  When [vm_frame_allocate]
    finds the pool empty, has the scanner pick the entry [v] and returns a
    frame, that frame is the frame of [v]: the hash has the same frames as
    before and the list the same length, the victim has left the list and
    the new entry, for the page asked for, is at its end; the pool is
    empty again. *)
Theorem eviction_reuses_victim_frame K cur upage0 s0 a v s1 p s' :
  kernel_ok K → table_ok s0 → user_pool s0 = ∅ →
  clock_pick_evict_frame K (thread_pagedir K cur) (scan_start s0)
  = Done (Lelem a) s1 →
  entries s0 !! a = Some v →
  vm_frame_allocate K cur upage0 s0 = Done (Some p) s' →
  p = kpage v ∧
  dom (frame_map s') = dom (frame_map s0) ∧
  length (frame_list s') = length (frame_list s0) ∧
  user_pool s' = ∅ ∧
  ∃ b, frame_list s' = filter (λ x, x ≠ a) (frame_list s0) ++ [b] ∧
       frame_map s' !! p = Some b ∧
       entries s' !! b = Some (FTE p upage0 cur false).
Proof.
  intros [Hpool Hheap] Hok Hempty Hpick Ha H.
  assert (palloc_pick K (user_pool s0) = None) as Hnone.
  { destruct (palloc_pick K (user_pool s0)) as [q|] eqn:Hq; [|done].
    apply Hpool in Hq. rewrite Hempty in Hq. set_solver. }
  assert (table_ok (scan_start s0)) as Hok'.
  { by eapply table_ok_ext; [..|exact Hok]. }
  pose proof (clock_pick_same K (thread_pagedir K cur) (scan_start s0)) as Hs.
  rewrite Hpick in Hs. destruct Hs as (Hl1 & Hm1 & Hli1 & He1 & Hp1).
  simpl in Hl1, Hm1, Hli1, He1, Hp1.
  unfold vm_frame_allocate in H.
  apply bind_done in H as ([] & sa & Hacq & H).
  assert (frame_lock s0 = false) as Hl.
  { revert Hacq. unfold lock_acquire. prim. by destruct (frame_lock s0). }
  rewrite (lock_acquire_run s0 Hl) in Hacq. injection Hacq as <-.
  apply bind_done in H as (p0 & s2 & Hget & H).
  assert (vm_frame_acquire K cur
            (traced [EvLockAcquire] (set_frame_lock true s0))
          = vm_frame_evict K cur (scan_start s0)) as Hsame.
  { unfold vm_frame_acquire, palloc_get_page. prim. setters. rewrite Hnone.
    unfold scan_start. setters. by rewrite <- (assoc_L (++)). }
  rewrite Hsame in Hget.
  destruct (vm_frame_evict_asserts K cur _ a v s1 p0 s2 Hpick Ha Hget)
    as (Ht & Hpd & Hk & Hofs).
  destruct (vm_frame_evict_run K cur (scan_start s0) a v s1)
    as [Hreg Hrun]; try done.
  rewrite Hrun in Hget. clear Hrun Hsame.
  unfold palloc_get_page, malloc in *. prim. setters.
  rewrite Hp1, Hempty in Hget.
  destruct (palloc_pick K ({[kpage v]} ∪ ∅)) as [q|] eqn:Hq; [|discriminate].
  injection Hget as -> <-.
  assert (p0 = kpage v) as -> by (apply Hpool in Hq; set_solver).
  destruct (malloc_pick K _) as [b|] eqn:Hb; setters.
  2:{ rewrite Hl1 in H. discriminate. }
  unfold hash_insert in H. prim. setters.
  rewrite lookup_insert_eq in H. setters. rewrite lookup_delete_eq in H.
  setters. rewrite Hl1 in H. injection H as <- <-. simpl.
  assert (a ∈ frame_list s0) as Hin.
  { apply clock_pick_elem in Hpick. done. }
  split; [done|]. split; [|split; [|split]].
  - rewrite dom_insert_L, dom_delete_L, Hm1.
    assert (kpage v ∈ dom (frame_map s0)) by (apply elem_of_dom; eauto).
    apply set_eq. intros x. destruct (decide (x = kpage v)); set_solver.
  - rewrite length_app, Hli1. simpl.
    rewrite <- (filter_ne_length (frame_list s0) a); [lia|by destruct Hok|done].
  - set_solver.
  - exists b. rewrite Hli1, !lookup_insert_eq. done.
Qed.

Lemma eviction_reuses_victim_frame_witness :
  ∃ s',
    vm_frame_allocate (Pintos.kern Pintos.tail_pinned) Pintos.T2 Pintos.pageC
      (Pintos.first_pinned Pintos.tail_pinned) = Done (Some Pintos.F2) s' ∧
    Pintos.F2 = kpage Pintos.entryB ∧
    dom (frame_map s') = dom (frame_map (Pintos.first_pinned Pintos.tail_pinned)) ∧
    length (frame_list s')
    = length (frame_list (Pintos.first_pinned Pintos.tail_pinned)) ∧
    user_pool s' = ∅ ∧
    ∃ b, frame_list s'
         = filter (λ x, x ≠ Pintos.block2)
             (frame_list (Pintos.first_pinned Pintos.tail_pinned)) ++ [b] ∧
         frame_map s' !! Pintos.F2 = Some b ∧
         entries s' !! b = Some (FTE Pintos.F2 Pintos.pageC Pintos.T2 false).
Proof.
  assert (vm_frame_allocate (Pintos.kern Pintos.tail_pinned) Pintos.T2
            Pintos.pageC (Pintos.first_pinned Pintos.tail_pinned)
          = Done (Some Pintos.F2)
              (final (vm_frame_allocate (Pintos.kern Pintos.tail_pinned)
                        Pintos.T2 Pintos.pageC
                        (Pintos.first_pinned Pintos.tail_pinned)))) as Hrun.
  { vm_compute. reflexivity. }
  assert (table_ok (Pintos.first_pinned Pintos.tail_pinned)) as Hok.
  { apply (bool_decide_unpack _). vm_compute. exact I. }
  eexists. split; [exact Hrun|].
  apply (eviction_reuses_victim_frame (Pintos.kern Pintos.tail_pinned)
           Pintos.T2 Pintos.pageC (Pintos.first_pinned Pintos.tail_pinned)
           Pintos.block2 Pintos.entryB Pintos.picked_B Pintos.F2 _
           (kern_ok Pintos.tail_pinned) Hok).
  - vm_compute. reflexivity.
  - vm_compute. reflexivity.
  - vm_compute. reflexivity.
  - exact Hrun.
Defined.

(** ** The key of the hash *)

(** X17: the hash knows an entry by its [kpage] alone.  Two entries
    are equal for [frame_less_func], neither below the other, exactly when
    they have the same [kpage], and then [frame_hash_func] gives them the
    same hash; so the temporary entry of lines 152-155 and 220-222, of
    which only [kpage] is written, finds the entry of that frame whatever
    its other fields hold.  The order is irreflexive and transitive. *)
Theorem hash_key_is_kpage hash_bytes a b :
  (frame_less_func a b = false ∧ frame_less_func b a = false
   ↔ kpage a = kpage b) ∧
  (kpage a = kpage b →
   frame_hash_func hash_bytes a = frame_hash_func hash_bytes b) ∧
  (∀ up th pn,
     frame_less_func (FTE (kpage a) up th pn) a = false ∧
     frame_less_func a (FTE (kpage a) up th pn) = false ∧
     frame_hash_func hash_bytes (FTE (kpage a) up th pn)
     = frame_hash_func hash_bytes a) ∧
  frame_less_func a a = false ∧
  (∀ c, frame_less_func a b = true → frame_less_func b c = true →
        frame_less_func a c = true).
Proof.
  unfold frame_less_func, frame_hash_func.
  split; [|split; [|split; [|split]]].
  - rewrite !bool_decide_eq_false. lia.
  - by intros ->.
  - intros up th pn. simpl. rewrite !bool_decide_eq_false. split; [lia|].
    split; [lia|done].
  - rewrite bool_decide_eq_false. lia.
  - intros c. rewrite !bool_decide_eq_true. lia.
Qed.

(** ** Nothing to evict *)

Lemma map_img_size_inj (m : gmap Z Z) :
  (∀ k k' a, m !! k = Some a → m !! k' = Some a → k = k') →
  size (map_img m : gset Z) = size m.
Proof.
  induction m as [|i x m Hi _ IH] using map_first_key_ind; intros Hinj.
  - by rewrite map_img_empty_L, size_empty.
  - rewrite map_img_insert_notin_L, map_size_insert_None by done.
    rewrite size_union, size_singleton.
    + rewrite IH; [done|]. intros k k' a Hk Hk'.
      apply (Hinj k k' a); rewrite lookup_insert_ne; try done;
        intros <-; congruence.
    + apply disjoint_singleton_l. intros [k Hk]%elem_of_map_img.
      assert (i = k) as <-; [|congruence].
      apply (Hinj i k x); [apply lookup_insert_eq|].
      rewrite lookup_insert_ne; [done|]. intros <-. congruence.
Qed.

Lemma table_ok_size_eq s :
  table_ok s → length (frame_list s) = size (frame_map s).
Proof.
  intros Hok. pose proof Hok as (Hnd & Hs & _).
  rewrite <- (size_list_to_set (C := gset Z)) by done.
  unfold order_entries, registry_entries in Hs. rewrite Hs.
  apply map_img_size_inj. intros k k' a. by apply table_ok_inj.
Qed.

(** X18: nothing to evict.  In a well-formed, non-empty table whose
    entries are all pinned, with the clock pointer null or at the end of
    the list and the bytes at the tail sentinel reading as pinned,
    [clock_pick_evict_frame] uses up its [2n + 1] iterations and stops at
    the PANIC of line 197, having made no call outside the file and
    changed nothing but the clock pointer. *)
Theorem all_pinned_is_out_of_memory K pagedir s :
  table_ok s → frame_list s ≠ [] →
  clock_ptr s = Null ∨ clock_ptr s = ListEnd →
  pinned (list_end_entry K) = true →
  (∀ a e, a ∈ frame_list s → entries s !! a = Some e → pinned e = true) →
  ∃ s',
    clock_pick_evict_frame K pagedir s = Halt PanicNoVictim s' ∧
    same_table s s' ∧ accessed s' = accessed s ∧ trace s' = trace s ∧
    length (scan_log s') = (length (scan_log s) + 2 * size (frame_map s) + 1)%nat.
Proof.
  intros Hok Hne Hc Hg Hall.
  pose proof (table_ok_size_eq s Hok) as Hsize.
  pose proof Hok as (Hnd & _).
  assert (∀ x, x ∈ frame_list s → is_Some (entries s !! x)) as Hlive.
  { intros x Hx. destruct (table_ok_elem _ _ Hok Hx) as (ex & Hex & _). eauto. }
  assert (length (frame_list s) ≠ 0%nat) as Hlen by (by destruct (frame_list s)).
  (* a lap over a list of pinned entries changes only the clock pointer and
     the log *)
  assert (∀ l2 l1 s0 fuel,
            frame_list s0 = l1 ++ l2 → NoDup (frame_list s0) →
            cursor_after l1 (clock_ptr s0) →
            (∀ a, a ∈ l2 → ∃ e, entries s0 !! a = Some e ∧ pinned e = true) →
            (length l2 ≤ fuel)%nat →
            ∃ s1, clock_scan K fuel pagedir s0
                  = clock_scan K (fuel - length l2) pagedir s1 ∧
                  same_table s0 s1 ∧ accessed s1 = accessed s0 ∧
                  trace s1 = trace s0 ∧
                  cursor_after (l1 ++ l2) (clock_ptr s1) ∧
                  length (scan_log s1) = (length (scan_log s0) + length l2)%nat)
    as Hlap.
  { induction l2 as [|a l2 IH]; intros l1 s0 fuel Hl0 Hnd0 Hc0 Hp0 Hfuel.
    { exists s0. rewrite Nat.sub_0_r, app_nil_r, Nat.add_0_r.
      split; [done|]. split; [apply same_table_refl|]. done. }
    destruct fuel as [|fuel]; [simpl in Hfuel; lia|]. simpl in Hfuel.
    cbn [clock_scan].
    rewrite (bind_run _ _ _ _ _ (clock_next_frame_at s0 l1 a l2 Hl0 Hnd0 Hc0)).
    set (s1 := set_scan_log _ _).
    destruct (Hp0 a) as (e & He & Hpe); [by left|].
    rewrite (bind_run _ _ _ e s1) by (by apply deref_done).
    rewrite Hpe.
    destruct (IH (l1 ++ [a]) s1 fuel) as (s2 & Hrun & Hs & Hacc & Htr & Hc2 & Hlog).
    - by rewrite <- (assoc_L (++)).
    - done.
    - unfold cursor_after. by rewrite last_snoc.
    - intros x Hx. apply Hp0. by right.
    - lia.
    - exists s2. split; [done|].
      split; [eapply same_table_trans; [|exact Hs]; by unfold same_table|].
      split; [done|]. split; [done|].
      split; [by rewrite <- (assoc_L (++)) in Hc2|].
      rewrite Hlog. unfold s1. setters. rewrite length_app. simpl. lia. }
  assert (∀ a, a ∈ frame_list s → ∃ e, entries s !! a = Some e ∧ pinned e = true)
    as Hpinned.
  { intros a Ha. destruct (Hlive a Ha) as [e He]. eauto. }
  unfold clock_pick_evict_frame. unfold hash_size, gets, mbind, M_bind.
  rewrite decide_False by lia.
  set (n := size (frame_map s)) in *.
  destruct (Hlap (frame_list s) [] s (S (n + n)) eq_refl Hnd Hc Hpinned ltac:(lia))
    as (s1 & Hrun & Hs1 & Hacc1 & Htr1 & Hc1 & Hlog1).
  rewrite Hrun. clear Hrun. pose proof Hs1 as (_ & _ & Hl1 & He1 & _).
  simpl in Hc1. unfold cursor_after in Hc1.
  destruct (last (frame_list s)) as [b|] eqn:Hlast.
  2:{ apply last_None in Hlast. by rewrite Hlast in Hlen. }
  apply last_Some in Hlast as [l' Hl'].
  replace (S (n + n) - length (frame_list s))%nat with (S n) by lia.
  cbn [clock_scan].
  rewrite (bind_run _ _ _ _ _
             (clock_next_frame_at_end s1 l' b ltac:(congruence)
                ltac:(by rewrite Hl1) Hc1)).
  set (s2 := set_scan_log _ _).
  rewrite (bind_run _ _ _ (list_end_entry K) s2) by (by apply deref_done).
  rewrite Hg.
  assert (frame_list s2 = [] ++ frame_list s) as Hl2 by done.
  assert (NoDup (frame_list s2)) as Hnd2 by (by rewrite Hl2).
  assert (cursor_after [] (clock_ptr s2)) as Hc2 by (by right).
  assert (∀ a, a ∈ frame_list s →
               ∃ e, entries s2 !! a = Some e ∧ pinned e = true) as Hp2.
  { intros x Hx. simpl. rewrite He1. by apply Hpinned. }
  destruct (Hlap (frame_list s) [] s2 n Hl2 Hnd2 Hc2 Hp2 ltac:(lia))
    as (s3 & Hrun & Hs3 & Hacc3 & Htr3 & _ & Hlog3).
  rewrite Hrun. replace (n - length (frame_list s))%nat with 0%nat by lia.
  exists s3. split; [done|]. split; [|split; [|split]].
  - eapply same_table_trans; [exact Hs1|].
    eapply same_table_trans; [|exact Hs3]. by unfold same_table.
  - by rewrite Hacc3, <- Hacc1.
  - by rewrite Htr3, <- Htr1.
  - rewrite Hlog3. unfold s2. setters. rewrite length_app, Hlog1. simpl. lia.
Qed.

Lemma all_pinned_is_out_of_memory_witness :
  ∃ s',
    clock_pick_evict_frame (Pintos.kern Pintos.tail_pinned) 0 Pintos.both_pinned
    = Halt PanicNoVictim s' ∧
    same_table Pintos.both_pinned s' ∧
    accessed s' = accessed Pintos.both_pinned ∧
    trace s' = trace Pintos.both_pinned ∧
    length (scan_log s')
    = (length (scan_log Pintos.both_pinned)
       + 2 * size (frame_map Pintos.both_pinned) + 1)%nat.
Proof.
  apply all_pinned_is_out_of_memory.
  - apply (bool_decide_unpack _). vm_compute. exact I.
  - vm_compute. discriminate.
  - left. vm_compute. reflexivity.
  - reflexivity.
  - intros a e Ha He.
    assert (a = Pintos.block1 ∨ a = Pintos.block2) as [->| ->].
    { revert Ha. vm_compute frame_list. rewrite !elem_of_cons, elem_of_nil.
      tauto. }
    + vm_compute in He. by injection He as <-.
    + vm_compute in He. by injection He as <-.
Defined.

(** ** Eviction only on exhaustion *)

(** X19: while the pool has a page [vm_frame_allocate] evicts nothing.
    For a page [p] of the pool that is not a key of the hash, the result
    follows the answer [m] of [malloc]: with a block [a] the call returns
    [p], files it in the hash under [a], puts [a] at the end of the list
    and writes the record for the page asked for; with no block it returns
    null and the hash, the list and the records are as before.  In both
    cases [p] has left the pool, the scanner has not run (the clock
    pointer, the accessed bits and the ghost log are as before), every
    frame of the hash is still filed under the same entry, the lock is
    free, and the calls made are [lock_acquire], [palloc_get_page] with
    result [p], [malloc] with result [m] and [lock_release]. *)
Theorem no_eviction_while_pool_has_page K cur upage0 s p :
  frame_lock s = false → palloc_pick K (user_pool s) = Some p →
  frame_map s !! p = None →
  let m := malloc_pick K (dom (entries s)) in
  ∃ s',
    vm_frame_allocate K cur upage0 s
    = Done (match m with Some _ => Some p | None => None end) s' ∧
    trace s' = trace s ++ [EvLockAcquire; EvPallocGet (Some p); EvMalloc m;
                           EvLockRelease] ∧
    clock_ptr s' = clock_ptr s ∧ accessed s' = accessed s ∧
    scan_log s' = scan_log s ∧
    frame_lock s' = false ∧
    user_pool s' = user_pool s ∖ {[p]} ∧
    frame_list s'
    = frame_list s ++ match m with Some a => [a] | None => [] end ∧
    frame_map s'
    = match m with Some a => <[p := a]> (frame_map s) | None => frame_map s end ∧
    entries s'
    = match m with
      | Some a => <[a := FTE p upage0 cur false]> (entries s)
      | None => entries s
      end ∧
    (∀ k a, frame_map s !! k = Some a → frame_map s' !! k = Some a).
Proof.
  intros Hl Hp Hfresh m. unfold m.
  destruct (malloc_pick K (dom (entries s))) as [a|] eqn:Hm.
  - eexists. split; [by apply vm_frame_allocate_direct|]. simpl.
    repeat apply conj; try done.
    intros k b Hk. rewrite lookup_insert_ne; [done|]. intros <-. congruence.
  - eexists. split; [by apply vm_frame_allocate_no_block|]. simpl.
    repeat apply conj; try done. by rewrite app_nil_r.
Qed.

Lemma no_eviction_while_pool_has_page_witness :
  ∃ s',
    vm_frame_allocate (Pintos.kern Pintos.tail_pinned) Pintos.T1 Pintos.pageB
      Pintos.owned_by_T1_of_two = Done (Some Pintos.F2) s' ∧
    trace s' = trace Pintos.owned_by_T1_of_two
               ++ [EvLockAcquire; EvPallocGet (Some Pintos.F2);
                   EvMalloc (Some Pintos.block2); EvLockRelease] ∧
    frame_list s' = frame_list Pintos.owned_by_T1_of_two ++ [Pintos.block2] ∧
    frame_map s' = <[Pintos.F2 := Pintos.block2]>
                     (frame_map Pintos.owned_by_T1_of_two).
Proof.
  destruct (no_eviction_while_pool_has_page (Pintos.kern Pintos.tail_pinned)
              Pintos.T1 Pintos.pageB Pintos.owned_by_T1_of_two Pintos.F2)
    as (s' & H0 & H1 & _ & _ & _ & _ & _ & H2 & H3 & _);
    [vm_compute; reflexivity..|].
  exists s'. repeat apply conj; assumption.
Defined.

(** The same call when the heap has no block: null is returned, the page
    has left the pool and the table is as before. *)
Example no_eviction_without_block :
  let K := Pintos.kern_no_heap Pintos.tail_pinned in
  let s := Pintos.owned_by_T1_of_two in
  let r := vm_frame_allocate K Pintos.T1 Pintos.pageB s in
  verdict r = inl None ∧
  trace (final r) = trace s ++ [EvLockAcquire; EvPallocGet (Some Pintos.F2);
                                EvMalloc None; EvLockRelease] ∧
  frame_list (final r) = frame_list s ∧
  frame_map (final r) = frame_map s ∧
  entries (final r) = entries s ∧
  user_pool (final r) = ∅.
Proof. intros. repeat apply conj; evaluate. Qed.
